(** * txtizepdf: page-aware sentence extraction (utils/pdf_extractor.py)

    A shallow embedding of the extraction pipeline: the skip-page parser,
    the header/footer block filter, the text-area ratio, the line-break
    normaliser, the sentence splitter, the page filter and the page walk
    that stitches sentences across page boundaries.

    Python [str] values are lists of Unicode code points, Python [int]s are
    [Z], Python [float]s are binary64 primitive floats, [set[int]] is
    [gset Z]. *)

From Stdlib Require Import ZArith NArith List String Ascii Lia Bool.
From Stdlib Require Import Floats.PrimFloat.
From stdpp Require Import base list gmap.
Import ListNotations.
Open Scope Z_scope.

(** ** Characters and strings *)

Definition char := N.
Definition str := list char.

(** ASCII literals of the development, as code points. *)
Definition lit (s : string) : str :=
  List.map N_of_ascii (list_ascii_of_string s).

Definition LF : char := 10%N.
Definition SPACE : char := 32%N.
Definition HYPHEN : char := 45%N.
Definition COMMA : char := 44%N.
Definition PLUS : char := 43%N.
Definition UNDERSCORE : char := 95%N.

Module Unicode.

Definition in_range (lo hi c : char) : bool :=
  (N.leb lo c && N.leb c hi)%bool.

(** [str.isspace] on one character, which is also the class [\s] of [re]
    on [str] patterns. *)
Definition is_space (c : char) : bool :=
  (in_range 9 13 c || in_range 28 32 c || N.eqb c 133 || N.eqb c 160
   || N.eqb c 5760 || in_range 8192 8202 c || in_range 8232 8233 c
   || N.eqb c 8239 || N.eqb c 8287 || N.eqb c 12288)%bool%N.

(** Line boundaries of [str.splitlines]. *)
Definition is_linebreak (c : char) : bool :=
  (in_range 10 13 c || in_range 28 30 c || N.eqb c 133
   || in_range 8232 8233 c)%bool%N.

(** First code points of the runs of ten decimal digits (category Nd,
    Unicode 14.0): each run holds the digits 0 to 9 in order. *)
Definition decimal_bases : list char :=
  [48; 1632; 1776; 1984; 2406; 2534; 2662; 2790; 2918; 3046; 3174; 3302;
   3430; 3558; 3664; 3792; 3872; 4160; 4240; 6112; 6160; 6470; 6608; 6784;
   6800; 6992; 7088; 7232; 7248; 42528; 43216; 43264; 43472; 43504; 43600;
   44016; 65296; 66720; 68912; 69734; 69872; 69942; 70096; 70384; 70736;
   70864; 71248; 71360; 71472; 71904; 72016; 72784; 73040; 73120; 92768;
   92864; 93008; 120782; 120792; 120802; 120812; 120822; 123200; 123632;
   125264; 130032]%N.

(** Decimal value of a digit character, [None] for any other. *)
Definition to_decimal (c : char) : option Z :=
  match List.find (fun b => in_range b (b + 9)%N c) decimal_bases with
  | Some b => Some (Z.of_N (c - b)%N)
  | None => None
  end.

(** The class [\d] of [re] on [str] patterns. *)
Definition is_digit (c : char) : bool :=
  match to_decimal c with Some _ => true | None => false end.

(** [c] matches the lower-case literal [lo] under [re.IGNORECASE]; the
    letter i also matches U+0130 and U+0131. *)
Definition matches_ignorecase (lo c : char) : bool :=
  (N.eqb c lo || N.eqb (c + 32) lo
   || (N.eqb lo 105 && (N.eqb c 304 || N.eqb c 305)))%bool%N.

End Unicode.

(** The sentence-final characters [. ! ? … 。 ？ ！] that the three
    regular expressions of the module share. *)
Definition is_terminal (c : char) : bool :=
  (N.eqb c 46 || N.eqb c 33 || N.eqb c 63 || N.eqb c 8230 || N.eqb c 12290
   || N.eqb c 65311 || N.eqb c 65281)%bool%N.

Module PyStr.

Fixpoint lstrip (s : str) : str :=
  match s with
  | c :: rest => if Unicode.is_space c then lstrip rest else s
  | [] => []
  end.

Definition rstrip (s : str) : str := rev (lstrip (rev s)).

(** [s.strip()] *)
Definition strip (s : str) : str := rstrip (lstrip s).

(** [s.startswith(p)] *)
Fixpoint startswith (s p : str) : bool :=
  match p, s with
  | [], _ => true
  | _ :: _, [] => false
  | a :: p', b :: s' => (N.eqb a b && startswith s' p')%bool
  end.

(** [s.endswith(c)] for a one-character suffix. *)
Definition endswith_char (s : str) (c : char) : bool :=
  match rev s with
  | d :: _ => N.eqb d c
  | [] => false
  end.

(** [c in s] for a one-character needle. *)
Definition contains (c : char) (s : str) : bool :=
  existsb (N.eqb c) s.

(** [s.split(sep)] for a one-character separator: one more piece than
    there are separators. [cur] holds the current piece, reversed. *)
Fixpoint split_aux (sep : char) (cur : str) (s : str) : list str :=
  match s with
  | [] => [rev cur]
  | c :: rest =>
      if N.eqb c sep then rev cur :: split_aux sep [] rest
      else split_aux sep (c :: cur) rest
  end.

Definition split (sep : char) (s : str) : list str := split_aux sep [] s.

(** [s.split(sep, maxsplit=1)]: cut at the first separator only. *)
Fixpoint split_once_aux (sep : char) (cur : str) (s : str) : list str :=
  match s with
  | [] => [rev cur]
  | c :: rest =>
      if N.eqb c sep then [rev cur; rest]
      else split_once_aux sep (c :: cur) rest
  end.

Definition split_once (sep : char) (s : str) : list str :=
  split_once_aux sep [] s.

(** [s.splitlines()]: a line ends at a line boundary, CR LF counts as
    one boundary, and no empty line follows a final boundary.
    [after_cr] records that the previous character was a CR. *)
Fixpoint splitlines_aux (after_cr : bool) (cur : str) (s : str)
  : list str :=
  match s with
  | [] => match cur with [] => [] | _ => [rev cur] end
  | c :: rest =>
      if (after_cr && N.eqb c 10)%bool%N then splitlines_aux false cur rest
      else if Unicode.is_linebreak c
           then rev cur :: splitlines_aux (N.eqb c 13%N) [] rest
           else splitlines_aux false (c :: cur) rest
  end.

Definition splitlines (s : str) : list str := splitlines_aux false [] s.

(** [sep.join(parts)] *)
Fixpoint join (sep : str) (parts : list str) : str :=
  match parts with
  | [] => []
  | [p] => p
  | p :: ps => p ++ sep ++ join sep ps
  end.

(** Whitespace that [int()] skips around a number: the whitespace class
    without the four separators U+001C to U+001F. *)
Definition int_space (c : char) : bool :=
  (Unicode.is_space c && negb (Unicode.in_range 28 31 c))%bool%N.

Fixpoint int_lskip (s : str) : str :=
  match s with
  | c :: rest => if int_space c then int_lskip rest else s
  | [] => []
  end.

(** Digits of a number, most significant first, with single underscores
    allowed between digits. [acc] is the value read so far and
    [after_digit] tells whether the previous character was a digit. *)
Fixpoint int_digits (acc : Z) (after_digit : bool) (s : str) : option Z :=
  match s with
  | [] => if after_digit then Some acc else None
  | c :: rest =>
      match Unicode.to_decimal c with
      | Some d => int_digits (10 * acc + d) true rest
      | None =>
          if (N.eqb c UNDERSCORE && after_digit)%bool
          then int_digits acc false rest
          else None
      end
  end.

(** [sys.get_int_max_str_digits()] as it is by default: a number with
    more digits is refused. *)
Definition int_max_str_digits : Z := 4300.

Definition int_unsigned (s : str) : option Z :=
  if int_max_str_digits <? Z.of_nat (length (List.filter Unicode.is_digit s))
  then None
  else int_digits 0 false s.

(** [int(s)] in base ten: [None] stands for [ValueError]. *)
Definition int (s : str) : option Z :=
  match rev (int_lskip (rev (int_lskip s))) with
  | [] => None
  | c :: rest =>
      if N.eqb c PLUS then int_unsigned rest
      else if N.eqb c HYPHEN
           then option_map Z.opp (int_unsigned rest)
           else int_unsigned (c :: rest)
  end.

End PyStr.


(** ** The [re] functions the module calls

    A regular expression that cannot match the empty string is given by its
    matcher: from the character before the position (for a look-behind) and
    the text from the position on, the length of the match that starts
    there, if any. *)

Module Re.

Definition matcher := option char -> str -> option nat.

(** Length of the longest prefix whose characters are all in a class:
    what a greedy [c*] consumes. *)
Fixpoint run (cls : char -> bool) (s : str) : nat :=
  match s with
  | c :: rest => if cls c then S (run cls rest) else O
  | [] => O
  end.

(** [len(re.findall(p, s))]: the matches are found left to right and do
    not overlap. [skip] counts the characters of the current match that
    are still to be passed. *)
Fixpoint count_aux (m : matcher) (prev : option char) (skip : nat)
    (s : str) : nat :=
  match s with
  | [] => O
  | c :: rest =>
      match skip with
      | S k => count_aux m (Some c) k rest
      | O =>
          match m prev s with
          | Some (S k) => S (count_aux m (Some c) k rest)
          | _ => count_aux m (Some c) O rest
          end
      end
  end.

Definition findall_count (m : matcher) (s : str) : nat :=
  count_aux m None O s.

(** [p.split(s)]: the pieces of [s] between the matches, one more than
    there are matches. [cur] holds the current piece, reversed. *)
Fixpoint split_aux (m : matcher) (prev : option char) (skip : nat)
    (cur : str) (s : str) : list str :=
  match s with
  | [] => [rev cur]
  | c :: rest =>
      match skip with
      | S k => split_aux m (Some c) k cur rest
      | O =>
          match m prev s with
          | Some (S k) => rev cur :: split_aux m (Some c) k [] rest
          | _ => split_aux m (Some c) O (c :: cur) rest
          end
      end
  end.

Definition split (m : matcher) (s : str) : list str :=
  split_aux m None O [] s.

(** [(?<=[\.\!\?\…\。\？！])\s+] *)
Definition sentence_endings : matcher := fun prev s =>
  match prev with
  | Some p =>
      if is_terminal p then
        match run Unicode.is_space s with
        | O => None
        | n => Some n
        end
      else None
  | None => None
  end.

(** The tail [\s*\d+] of both caption patterns, as the number of
    characters it consumes. *)
Definition spaces_digits (s : str) : option nat :=
  let k := run Unicode.is_space s in
  match run Unicode.is_digit (drop k s) with
  | O => None
  | d => Some (k + d)%nat
  end.

(** [표\s*\d+] *)
Definition caption_ko : matcher := fun _ s =>
  match s with
  | c :: rest =>
      if N.eqb c 54364
      then option_map S (spaces_digits rest)
      else None
  | [] => None
  end.

(** A literal word under [re.IGNORECASE], given in lower case: the text
    after it. *)
Fixpoint word_ignorecase (w : str) (s : str) : option str :=
  match w, s with
  | [], _ => Some s
  | _ :: _, [] => None
  | a :: w', c :: s' =>
      if Unicode.matches_ignorecase a c then word_ignorecase w' s'
      else None
  end.

Definition word_then_number (w : str) (s : str) : option nat :=
  match word_ignorecase w s with
  | Some rest =>
      option_map (fun n => (length w + n)%nat) (spaces_digits rest)
  | None => None
  end.

(** [(Table|Figure)\s*\d+] with [flags=re.IGNORECASE]: the second
    alternative is tried when the first one fails. *)
Definition caption_en : matcher := fun _ s =>
  match word_then_number (lit "table") s with
  | Some n => Some n
  | None => word_then_number (lit "figure") s
  end.

(** [re.search(r"[.!?…。？！]$", s)] as a truth value: [$] stands at
    the end of the text and also before a line feed that ends it. *)
Definition search_terminal_at_end (s : str) : bool :=
  match rev s with
  | c :: before =>
      (is_terminal c
       || (N.eqb c LF
           && match before with d :: _ => is_terminal d | [] => false end))%bool
  | [] => false
  end.

End Re.

(** ** [parse_skip_pages] *)

(** [range(lo, hi + 1)] as a list. *)
Definition py_range (lo hi_excl : Z) : list Z := seqZ lo (hi_excl - lo).

(** One turn of the loop over the comma-separated parts: a part that
    fails to parse leaves [skips] as it is. *)
Definition parse_skip_part (skips : gset Z) (part : str) : gset Z :=
  let part := PyStr.strip part in
  match part with
  | [] => skips
  | _ =>
      if PyStr.contains HYPHEN part then
        match PyStr.split_once HYPHEN part with
        | [lo; hi] =>
            match PyStr.int (PyStr.strip lo) with
            | Some lo_i =>
                match PyStr.int (PyStr.strip hi) with
                | Some hi_i =>
                    if lo_i <=? hi_i
                    then skips ∪ list_to_set (py_range lo_i (hi_i + 1))
                    else skips
                | None => skips
                end
            | None => skips
            end
        | _ => skips
        end
      else
        match PyStr.int part with
        | Some num => skips ∪ {[ num ]}
        | None => skips
        end
  end.

Definition parse_skip_pages (skip_str : str) : gset Z :=
  fold_left parse_skip_part (PyStr.split COMMA skip_str) ∅.

(** ** Pages as the PDF library hands them over

    A field that a [dict] may lack is an [option]: [None] is the absent
    key, which [.get(key, default)] replaces by the default. *)

Definition bbox := (float * float * float * float)%type.

Record Span := { span_text : option str }.

Record Line := { line_spans : option (list Span) }.

Record Block := {
  blk_bbox : option bbox;
  blk_type : option Z;
  blk_lines : option (list Line)
}.

(** [page.get_text("dict")] *)
Record PageDict := {
  pd_blocks : option (list Block);
  pd_height : option float
}.

Record Page := {
  page_text : str;          (* page.get_text("text") *)
  page_images : list Z;     (* page.get_images(full=True) *)
  page_dict : PageDict;     (* page.get_text("dict") *)
  rect_width : float;       (* page.rect.width *)
  rect_height : float       (* page.rect.height *)
}.

(** Python's [max(a, b)]: the first argument unless the second is
    greater. *)
Definition py_max (a b : float) : float :=
  if PrimFloat.ltb a b then b else a.

(** ** [remove_header_footer_blocks] *)

Fixpoint keep_body_blocks (header_limit footer_limit : float)
    (blocks : list Block) : list Block :=
  match blocks with
  | [] => []
  | blk :: rest =>
      match blk_bbox blk with
      | None => keep_body_blocks header_limit footer_limit rest
      | Some (_, y0, _, y1) =>
          if PrimFloat.ltb y1 header_limit
          then keep_body_blocks header_limit footer_limit rest
          else if PrimFloat.ltb footer_limit y0
               then keep_body_blocks header_limit footer_limit rest
               else blk :: keep_body_blocks header_limit footer_limit rest
      end
  end.

Definition remove_header_footer_blocks (pd : PageDict)
    (header_height_ratio footer_height_ratio : float) : list Block :=
  let blocks := default [] (pd_blocks pd) in
  let H := default 0%float (pd_height pd) in
  let header_limit := PrimFloat.mul H header_height_ratio in
  let footer_limit :=
    PrimFloat.mul H (PrimFloat.sub 1%float footer_height_ratio) in
  keep_body_blocks header_limit footer_limit blocks.

(** ** [compute_text_block_area_ratio]

    [None] stands for the [KeyError] of [blk['bbox']] on a block without
    a bounding box. *)

Fixpoint sum_text_area (text_area : float) (blocks : list Block)
    : option float :=
  match blocks with
  | [] => Some text_area
  | blk :: rest =>
      if default (-1) (blk_type blk) =? 0 then
        match blk_bbox blk with
        | Some (x0, y0, x1, y1) =>
            let w := py_max 0%float (PrimFloat.sub x1 x0) in
            let h := py_max 0%float (PrimFloat.sub y1 y0) in
            sum_text_area (PrimFloat.add text_area (PrimFloat.mul w h)) rest
        | None => None
        end
      else sum_text_area text_area rest
  end.

Definition compute_text_block_area_ratio (page : Page) (pd : PageDict)
    (header_height_ratio footer_height_ratio : float) : option float :=
  let page_area := PrimFloat.mul (rect_width page) (rect_height page) in
  if PrimFloat.leb page_area 0%float then Some 0%float
  else
    let blocks :=
      remove_header_footer_blocks pd header_height_ratio footer_height_ratio in
    match sum_text_area 0%float blocks with
    | Some text_area => Some (PrimFloat.div text_area page_area)
    | None => None
    end.

(** ** [normalize_line_breaks] *)

(** One turn of the loop over the lines. *)
Definition normalize_line (normalized : str) (line : str) : str :=
  let line := PyStr.strip line in
  match line with
  | [] => normalized
  | _ =>
      if PyStr.endswith_char line HYPHEN
      then normalized ++ removelast line
      else if negb (Re.search_terminal_at_end line)
           then normalized ++ line ++ [SPACE]
           else normalized ++ line ++ [LF]
  end.

Definition normalize_line_breaks (raw_page_text : str) : str :=
  fold_left normalize_line (PyStr.splitlines raw_page_text) [].

(** ** [split_into_sentences] *)

Fixpoint strip_nonempty (raw_sents : list str) : list str :=
  match raw_sents with
  | [] => []
  | s :: rest =>
      match PyStr.strip s with
      | [] => strip_nonempty rest
      | s' => s' :: strip_nonempty rest
      end
  end.

Definition split_into_sentences (text : str) : list str :=
  strip_nonempty (Re.split Re.sentence_endings text).

(** ** [should_skip_page]

    [None] is an exception raised by the ratio computation. *)

Definition should_skip_page (page : Page) (page_num_1based : Z)
    (skip_pages : gset Z) (min_text_len table_threshold : Z)
    (skip_if_image : bool) (min_text_ratio : float)
    (header_height_ratio footer_height_ratio : float) : option bool :=
  if decide (page_num_1based ∈ skip_pages) then Some true
  else
    let raw_text := page_text page in
    if Z.of_nat (length (PyStr.strip raw_text)) <? min_text_len then Some true
    else
      let cnt_ko := Re.findall_count Re.caption_ko raw_text in
      let cnt_en := Re.findall_count Re.caption_en raw_text in
      if Z.of_nat (cnt_ko + cnt_en) >=? table_threshold then Some true
      else if (skip_if_image
               && match page_images page with [] => false | _ => true end)%bool
      then Some true
      else
        match compute_text_block_area_ratio page (page_dict page)
                header_height_ratio footer_height_ratio with
        | Some ratio =>
            if PrimFloat.ltb ratio min_text_ratio then Some true
            else Some false
        | None => None
        end.

(** ** [extract_sentences_with_page]

    The document is the list of its pages in order. The settings are the
    filter and extraction parameters of the function. Every sentence the
    page loop stores goes, with its start page [st_pg], to a file named
    after [st_pg] and, for the csv and json formats, to [records]; the
    model keeps that sequence of pairs and leaves the file system out. *)

Record Settings := {
  skip_pages : gset Z;
  min_text_len : Z;
  table_threshold : Z;
  skip_if_image : bool;
  min_text_ratio : float;
  remove_header_footer : bool;
  header_height_ratio : float;
  footer_height_ratio : float
}.

Record SentenceRecord := { page_num : Z; sentence : str }.

(** The variables the page loop carries from one page to the next. *)
Record WalkState := {
  carryover_fragment : str;
  carryover_page : option Z;
  records : list SentenceRecord
}.

Definition initial_state : WalkState :=
  {| carryover_fragment := []; carryover_page := None; records := [] |}.

Definition should_skip (cfg : Settings) (page : Page) (page_num : Z)
    : option bool :=
  should_skip_page page page_num (skip_pages cfg) (min_text_len cfg)
    (table_threshold cfg) (skip_if_image cfg) (min_text_ratio cfg)
    (header_height_ratio cfg) (footer_height_ratio cfg).

(** Step 2 with header and footer removal: the stripped, non-empty span
    texts of the text blocks that remain. *)
Fixpoint span_lines (spans : list Span) : list str :=
  match spans with
  | [] => []
  | span :: rest =>
      match PyStr.strip (default [] (span_text span)) with
      | [] => span_lines rest
      | t => t :: span_lines rest
      end
  end.

Fixpoint line_lines (lines : list Line) : list str :=
  match lines with
  | [] => []
  | line :: rest =>
      span_lines (default [] (line_spans line)) ++ line_lines rest
  end.

Fixpoint block_lines (valid_blocks : list Block) : list str :=
  match valid_blocks with
  | [] => []
  | blk :: rest =>
      if negb (default (-1) (blk_type blk) =? 0) then block_lines rest
      else line_lines (default [] (blk_lines blk)) ++ block_lines rest
  end.

Definition raw_page_text (cfg : Settings) (page : Page) : str :=
  if remove_header_footer cfg then
    let valid_blocks :=
      remove_header_footer_blocks (page_dict page)
        (header_height_ratio cfg) (footer_height_ratio cfg) in
    PyStr.join [LF] (block_lines valid_blocks)
  else page_text page.

(** Step 7 for one sentence: its start page, read from the loop variables
    as they stand after step 6. *)
Definition start_page (carryover_fragment : str) (carryover_page : option Z)
    (page_num : Z) (sent : str) : Z :=
  match carryover_page with
  | Some p =>
      if PyStr.startswith sent carryover_fragment then p else page_num
  | None => page_num
  end.

(** Steps 3 to 7 on the text of a page that is not skipped. *)
Definition process_text (page_num : Z) (raw : str) (st : WalkState)
    : WalkState :=
  let normalized := normalize_line_breaks raw in
  (* 4) join with the fragment of the previous page *)
  let '(normalized, start_page_for_carry, fragment, cpage) :=
    match carryover_fragment st with
    | [] => (normalized, Some page_num, carryover_fragment st,
             carryover_page st)
    | _ => (carryover_fragment st ++ [SPACE] ++ normalized,
            carryover_page st, [], None)
    end in
  (* 5) split *)
  let sents := split_into_sentences normalized in
  (* 6) an unterminated last sentence goes on to the next page *)
  let '(sents, fragment, cpage) :=
    match last sents with
    | Some last_sent =>
        if negb (Re.search_terminal_at_end last_sent)
        then (removelast sents, last_sent, start_page_for_carry)
        else (sents, fragment, cpage)
    | None => (sents, fragment, cpage)
    end in
  (* 7) store the sentences with their start page *)
  {| carryover_fragment := fragment;
     carryover_page := cpage;
     records :=
       records st ++
       List.map (fun sent =>
                   {| page_num := start_page fragment cpage page_num sent;
                      sentence := sent |}) sents |}.

(** One turn of the page loop; [None] is an exception. *)
Definition process_page (cfg : Settings) (page_num : Z) (page : Page)
    (st : WalkState) : option WalkState :=
  match should_skip cfg page page_num with
  | None => None
  | Some true => Some st
  | Some false => Some (process_text page_num (raw_page_text cfg page) st)
  end.

(** The page loop from [page_index] on. *)
Fixpoint walk (cfg : Settings) (page_index : Z) (pages : list Page)
    (st : WalkState) : option WalkState :=
  match pages with
  | [] => Some st
  | page :: rest =>
      match process_page cfg (page_index + 1) page st with
      | Some st' => walk cfg (page_index + 1) rest st'
      | None => None
      end
  end.

Definition extract_sentences_with_page (doc : list Page) (cfg : Settings)
    : option (list SentenceRecord) :=
  option_map records (walk cfg 0 doc initial_state).

(** ** The files and the result of [extract_sentences_with_page]

    Step 7 gives every stored sentence a file of its own, named after its
    start page and a running index, and the function returns the list of
    these names with the paths of the csv or json table. The name of a
    file depends on the names given before it and on nothing else, so the
    model stores the sentences in the order in which the page loop hands
    them over. Paths are POSIX paths. *)

From Stdlib Require DecimalN.

Definition SLASH : char := 47%N.

(** The characters of a decimal number. *)
Fixpoint uint_chars (d : Decimal.uint) : str :=
  match d with
  | Decimal.Nil => []
  | Decimal.D0 d => 48%N :: uint_chars d
  | Decimal.D1 d => 49%N :: uint_chars d
  | Decimal.D2 d => 50%N :: uint_chars d
  | Decimal.D3 d => 51%N :: uint_chars d
  | Decimal.D4 d => 52%N :: uint_chars d
  | Decimal.D5 d => 53%N :: uint_chars d
  | Decimal.D6 d => 54%N :: uint_chars d
  | Decimal.D7 d => 55%N :: uint_chars d
  | Decimal.D8 d => 56%N :: uint_chars d
  | Decimal.D9 d => 57%N :: uint_chars d
  end.

(** [str(n)] for a number that is not negative. *)
Definition decimal (n : N) : str := uint_chars (N.to_uint n).

Definition zero_pad (width : nat) (s : str) : str :=
  replicate (width - length s) 48%N ++ s.

(** [f"{n:0{width}d}"]: zeros fill the width after the sign. *)
Definition format_d (width : nat) (n : Z) : str :=
  if n <? 0
  then HYPHEN :: zero_pad (width - 1) (decimal (Z.to_N (- n)))
  else zero_pad width (decimal (Z.to_N n)).

(** [os.path.join(a, b)] *)
Definition path_join (a b : str) : str :=
  if PyStr.startswith b [SLASH] then b
  else match a with
       | [] => b
       | _ => if PyStr.endswith_char a SLASH then a ++ b
              else a ++ [SLASH] ++ b
       end.

(** What step 7 builds up: the names of the sentence files in the order
    of writing, the content of the files written, and the rows kept for
    the csv or json table. *)
Record Outputs := {
  sent_txt_files : list str;
  written : gmap str str;
  table_records : list SentenceRecord
}.

Definition keeps_table (output_format : str) : bool :=
  (bool_decide (output_format = lit "csv")
   || bool_decide (output_format = lit "json"))%bool.

(** Steps 7-1 and 7-2 for one sentence with its start page. *)
Definition store_sentence (output_dir output_format : str) (out : Outputs)
    (r : SentenceRecord) : Outputs :=
  let st_pg := page_num r in
  let sent := sentence r in
  let base_name := lit "page_" ++ format_d 3 st_pg in
  let sent_index :=
    Z.of_nat
      (length
         (List.filter
            (fun f => PyStr.startswith f (path_join output_dir base_name))
            (sent_txt_files out))) + 1 in
  let fname :=
    path_join output_dir
      (base_name ++ lit "_" ++ format_d 4 sent_index ++ lit ".txt") in
  {| sent_txt_files := sent_txt_files out ++ [fname];
     written := <[fname := sent]> (written out);
     table_records :=
       if keeps_table output_format then table_records out ++ [r]
       else table_records out |}.

(** The result of the function, with the files it has written. *)
Record Extraction := {
  result_sent_txt_files : list str;
  csv_path : option str;
  json_path : option str;
  result_files : gmap str str
}.

Definition finish (output_dir output_format : str) (out : Outputs)
    : Extraction :=
  let has_rows := match table_records out with [] => false | _ => true end in
  let csv := (bool_decide (output_format = lit "csv") && has_rows)%bool in
  let json := (bool_decide (output_format = lit "json") && has_rows)%bool in
  {| result_sent_txt_files := sent_txt_files out;
     csv_path :=
       if csv then Some (path_join output_dir (lit "all_sentences.csv"))
       else None;
     json_path :=
       if csv then None
       else if json
            then Some (path_join output_dir (lit "all_sentences.json"))
            else None;
     result_files := written out |}.

(** The sentences of the page loop stored one after the other, starting
    from the files already there. *)
Definition store_all (output_dir output_format : str)
    (files : gmap str str) (stored_pairs : list SentenceRecord) : Outputs :=
  fold_left (store_sentence output_dir output_format) stored_pairs
    {| sent_txt_files := []; written := files; table_records := [] |}.

(** The whole function: the page loop, the files and the result; [None]
    is an exception. *)
Definition extract_to_files (doc : list Page) (output_dir : str)
    (cfg : Settings) (output_format : str) (files : gmap str str)
    : option Extraction :=
  option_map
    (fun stored_pairs =>
       finish output_dir output_format
         (store_all output_dir output_format files stored_pairs))
    (extract_sentences_with_page doc cfg).

(** ** The run of the app (app.py, steps 4 to 6)

    The skip-page text of the side bar is parsed, and the set goes with
    the other options to the extraction into a fresh output directory. *)
Definition run_app (uploaded : list Page) (output_format : str)
    (skip_pages_str : str) (min_text_len table_threshold : Z)
    (skip_if_image : bool) (min_text_ratio : float)
    (remove_header_footer : bool)
    (header_height_ratio footer_height_ratio : float)
    (temp_output_dir : str) (files : gmap str str) : option Extraction :=
  let skip_pages_set := parse_skip_pages skip_pages_str in
  extract_to_files uploaded temp_output_dir
    {| skip_pages := skip_pages_set;
       min_text_len := min_text_len;
       table_threshold := table_threshold;
       skip_if_image := skip_if_image;
       min_text_ratio := min_text_ratio;
       remove_header_footer := remove_header_footer;
       header_height_ratio := header_height_ratio;
       footer_height_ratio := footer_height_ratio |}
    output_format files.

(** * Specification-side notions *)

(** The characters of a text that are not whitespace, in order. *)
Definition visible (s : str) : str :=
  List.filter (fun c => negb (Unicode.is_space c)) s.

(** A text whose last character is a sentence-final character. *)
Definition ends_terminal (s : str) : bool :=
  match last s with
  | Some c => is_terminal c
  | None => false
  end.

(** What a stripped, non-empty line adds to the normalised text, in the
    words of the specification: a final hyphen is dropped and nothing is
    added; a sentence-final character is followed by a newline; any other
    line is followed by one space. *)
Definition line_contribution (line : str) : str :=
  if PyStr.endswith_char line HYPHEN then removelast line
  else if ends_terminal line then line ++ [LF]
  else line ++ [SPACE].

(** The lines of a text, stripped, without the blank ones. *)
Definition nonblank_lines (raw : str) : list str :=
  List.filter (fun l => match l with [] => false | _ => true end)
    (List.map PyStr.strip (PyStr.splitlines raw)).

(** A block that has a bounding box lying neither wholly above the
    header limit nor wholly below the footer limit. *)
Definition above_header (H header_ratio : float) (b : bbox) : bool :=
  let '(_, _, _, y1) := b in
  PrimFloat.ltb y1 (PrimFloat.mul H header_ratio).

Definition below_footer (H footer_ratio : float) (b : bbox) : bool :=
  let '(_, y0, _, _) := b in
  PrimFloat.ltb (PrimFloat.mul H (PrimFloat.sub 1%float footer_ratio)) y0.

Definition in_body (H header_ratio footer_ratio : float) (blk : Block)
    : bool :=
  match blk_bbox blk with
  | Some b =>
      (negb (above_header H header_ratio b)
       && negb (below_footer H footer_ratio b))%bool
  | None => false
  end.

Definition is_text_block (blk : Block) : bool :=
  default (-1) (blk_type blk) =? 0.

Definition bbox_area (b : bbox) : float :=
  let '(x0, y0, x1, y1) := b in
  PrimFloat.mul (py_max 0%float (PrimFloat.sub x1 x0))
                (py_max 0%float (PrimFloat.sub y1 y0)).

Definition block_area (blk : Block) : float :=
  match blk_bbox blk with
  | Some b => bbox_area b
  | None => 0%float
  end.

(** The text-area ratio in the words of the specification; the areas are
    added from the first block to the last. *)
Definition text_area_ratio (page : Page) (pd : PageDict)
    (header_ratio footer_ratio : float) : float :=
  let page_area := PrimFloat.mul (rect_width page) (rect_height page) in
  let H := default 0%float (pd_height pd) in
  if PrimFloat.leb page_area 0%float then 0%float
  else
    PrimFloat.div
      (fold_left PrimFloat.add
         (List.map block_area
            (List.filter is_text_block
               (List.filter (in_body H header_ratio footer_ratio)
                  (default [] (pd_blocks pd)))))
         0%float)
      page_area.

(** The comma-separated tokens of a skip-page text, stripped. *)
Definition tokens (skip_str : str) : list str :=
  List.map PyStr.strip (PyStr.split COMMA skip_str).

(** The page numbers a token stands for: a token without a hyphen that
    reads as an integer stands for that integer; a token [lo-hi], cut at
    its first hyphen, stands for every integer from [lo] to [hi]. *)
Inductive token_page (tok : str) (n : Z) : Prop :=
  | bare_integer :
      PyStr.contains HYPHEN tok = false ->
      PyStr.int tok = Some n ->
      token_page tok n
  | inclusive_range (lo hi : str) (lo_i hi_i : Z) :
      PyStr.contains HYPHEN tok = true ->
      PyStr.split_once HYPHEN tok = [lo; hi] ->
      PyStr.int (PyStr.strip lo) = Some lo_i ->
      PyStr.int (PyStr.strip hi) = Some hi_i ->
      lo_i <= n <= hi_i ->
      token_page tok n.

(** The number of caption matches of a page text. *)
Definition caption_count (raw_text : str) : Z :=
  Z.of_nat (Re.findall_count Re.caption_ko raw_text
            + Re.findall_count Re.caption_en raw_text).

(** The pages that the filter lets through, with their 1-based numbers. *)
Fixpoint included_pages (cfg : Settings) (page_index : Z)
    (pages : list Page) : list (Z * Page) :=
  match pages with
  | [] => []
  | page :: rest =>
      match should_skip cfg page (page_index + 1) with
      | Some false =>
          (page_index + 1, page) :: included_pages cfg (page_index + 1) rest
      | _ => included_pages cfg (page_index + 1) rest
      end
  end.

(** Steps 3 to 7 on a list of numbered pages, none of which is skipped. *)
Definition run_pages (cfg : Settings) (numbered : list (Z * Page))
    (st : WalkState) : WalkState :=
  fold_left
    (fun st np => process_text (fst np) (raw_page_text cfg (snd np)) st)
    numbered st.

(** The normalised text of a page. *)
Definition normalized_text (cfg : Settings) (page : Page) : str :=
  normalize_line_breaks (raw_page_text cfg page).

(** The normalised text of the whole document, and of its included
    pages. *)
Definition document_text (cfg : Settings) (doc : list Page) : str :=
  concat (List.map (normalized_text cfg) doc).

Definition included_text (cfg : Settings) (doc : list Page) : str :=
  concat (List.map (fun np => normalized_text cfg (snd np))
            (included_pages cfg 0 doc)).

Definition sentences (recs : list SentenceRecord) : list str :=
  List.map sentence recs.

(** The sentences of the records with a single space between them. *)
Definition joined_sentences (recs : list SentenceRecord) : str :=
  PyStr.join [SPACE] (sentences recs).

Definition no_page_skipped (cfg : Settings) (doc : list Page) : Prop :=
  forall (i : nat) (page : Page),
    doc !! i = Some page ->
    should_skip cfg page (Z.of_nat i + 1) = Some false.

(** The piece under construction ends with the previous character
    whenever that character is sentence-final. *)
Definition piece_tracks (prev : option char) (cur : str) : Prop :=
  forall p, prev = Some p -> is_terminal p = true -> head cur = Some p.

(** The text that step 5 splits: the normalised page text, after the
    pending fragment and a space when there is one. *)
Definition merged_text (raw : str) (st : WalkState) : str :=
  match carryover_fragment st with
  | [] => normalize_line_breaks raw
  | f => f ++ [SPACE] ++ normalize_line_breaks raw
  end.

(** The origin page that step 4 remembers. *)
Definition origin_page (n : Z) (st : WalkState) : option Z :=
  match carryover_fragment st with
  | [] => Some n
  | _ => carryover_page st
  end.

(** The page of the fragment when step 6 sets none. *)
Definition cleared_page (st : WalkState) : option Z :=
  match carryover_fragment st with
  | [] => carryover_page st
  | _ => None
  end.

Definition stored (fragment : str) (cpage : option Z) (n : Z)
    (sents : list str) : list SentenceRecord :=
  List.map (fun sent => {| page_num := start_page fragment cpage n sent;
                           sentence := sent |}) sents.

(** What a state holds: the visible characters of its records, then those
    of its fragment. *)
Definition held (st : WalkState) : str :=
  visible (concat (sentences (records st))) ++
  visible (carryover_fragment st).

(** A state whose fragment is empty, or stripped and unterminated, and
    whose recorded sentences all end with a sentence-final character. *)
Definition fragment_open (st : WalkState) : Prop :=
  carryover_fragment st = [] \/
  (PyStr.strip (carryover_fragment st) = carryover_fragment st /\
   ends_terminal (carryover_fragment st) = false).

Definition records_closed (st : WalkState) : Prop :=
  forall r, In r (records st) -> ends_terminal (sentence r) = true.

(** A state whose recorded sentences are stripped and not empty. *)
Definition records_clean (st : WalkState) : Prop :=
  forall r, In r (records st) ->
    sentence r <> [] /\ PyStr.strip (sentence r) = sentence r.

(** A state that names only page numbers with the property [P]. *)
Definition pages_known (P : Z -> Prop) (st : WalkState) : Prop :=
  (forall p, carryover_page st = Some p -> P p) /\
  (forall r, In r (records st) -> P (page_num r)).

(** * Example documents *)

(** A block of text lines inside the body of a US-letter page. *)
Definition text_block (lines : list str) : Block :=
  {| blk_bbox := Some (72, 72, 540, 720)%float;
     blk_type := Some 0;
     blk_lines :=
       Some (List.map
               (fun l => {| line_spans := Some [ {| span_text := Some l |} ] |})
               lines) |}.

(** A page of 612 by 792 points with one text block and no image. *)
Definition text_page (lines : list str) : Page :=
  {| page_text := PyStr.join [LF] lines;
     page_images := [];
     page_dict := {| pd_blocks := Some [text_block lines];
                     pd_height := Some 792%float |};
     rect_width := 612%float;
     rect_height := 792%float |}.

(** Settings that skip the pages of [skips], pages of fewer than
    [min_len] characters, pages with three captions and pages whose text
    covers less than a sixteenth of the sheet. *)
Definition plain_settings (skips : list Z) (min_len : Z) : Settings :=
  {| skip_pages := list_to_set skips;
     min_text_len := min_len;
     table_threshold := 3;
     skip_if_image := false;
     min_text_ratio := 0.0625%float;
     remove_header_footer := false;
     header_height_ratio := 0.0625%float;
     footer_height_ratio := 0.0625%float |}.

(** Six pages, the first four skipped by number; page 5 ends in the
    middle of a sentence that page 6 completes. *)
Definition wrap_doc : list Page :=
  [ text_page []; text_page []; text_page []; text_page [];
    text_page [lit "This is a sentence that wraps onto the next"];
    text_page [lit "page and ends here. Another full sentence."] ].

Definition wrap_settings : Settings := plain_settings [1; 2; 3; 4] 10.

(** Two pages: page 1 ends in the middle of a sentence, and page 2
    completes it, holds a whole sentence and starts a third one with the
    first word of the second. *)
Definition echo_doc : list Page :=
  [ text_page [lit "Alpha"];
    text_page [lit "beta. Gamma delta. Gamma"] ].

(** One page of two complete sentences on two lines. *)
Definition two_line_doc : list Page :=
  [ text_page [lit "One."; lit "Two."] ].

(** One page whose first line ends in a hyphenated word. *)
Definition hyphen_doc : list Page :=
  [ text_page [lit "co-"; lit "op."] ].

(** Three pages: a fragment on page 1, page 2 skipped by number, the end
    of the sentence on page 3. *)
Definition gap_doc : list Page :=
  [ text_page [lit "Alpha"];
    text_page [lit "Intruder text here."];
    text_page [lit "beta. Gamma."] ].

Definition gap_settings : Settings := plain_settings [2] 1.

(** The third page of the specification's caption example. *)
Definition caption_page : Page :=
  text_page [[54364; 32; 49; 32; 54364; 32; 50; 32; 54364; 32; 51]%N].

(** A page without width. *)
Definition flat_page : Page :=
  {| page_text := lit "Text.";
     page_images := [];
     page_dict := {| pd_blocks := Some [text_block [lit "Text."]];
                     pd_height := Some 792%float |};
     rect_width := 0%float;
     rect_height := 792%float |}.

(** The round trip as the specification words it, in its weakest
    reading: when no page is skipped, the sentences joined by single
    spaces are the document text without some final part. *)
Definition roundtrip_as_stated (cfg : Settings) (doc : list Page) : Prop :=
  no_page_skipped cfg doc ->
  forall st, walk cfg 0 doc initial_state = Some st ->
    joined_sentences (records st) `prefix_of` document_text cfg doc.

(** The terminal-drop property as the specification words it, in its
    weakest reading: when no fragment is left behind, every character of
    the text of an included page that is not whitespace occurs in some
    record. *)
Definition only_fragment_lost (cfg : Settings) (doc : list Page) : Prop :=
  forall st, walk cfg 0 doc initial_state = Some st ->
    carryover_fragment st = [] ->
    forall n page c,
      In (n, page) (included_pages cfg 0 doc) ->
      In c (raw_page_text cfg page) ->
      Unicode.is_space c = false ->
      In c (concat (sentences (records st))).

(** * Notions for the further properties *)

(** A page whose last sentence, if it has any, ends the way step 6 asks
    for: the page leaves no fragment behind when none comes in. *)
Definition page_closed (cfg : Settings) (page : Page) : bool :=
  match last (split_into_sentences (normalized_text cfg page)) with
  | Some x => Re.search_terminal_at_end x
  | None => true
  end.

(** The sentences of a page, each with the number of that page. *)
Definition page_records (n : Z) (sents : list str) : list SentenceRecord :=
  List.map (fun s => {| page_num := n; sentence := s |}) sents.

(** The records of a document read page by page, every sentence with the
    number of the page it stands on. *)
Definition records_by_page (cfg : Settings) (numbered : list (Z * Page))
    : list SentenceRecord :=
  concat
    (List.map
       (fun np => page_records (fst np)
                    (split_into_sentences (normalized_text cfg (snd np))))
       numbered).

Definition is_terminal_opt (prev : option char) : bool :=
  match prev with
  | Some p => is_terminal p
  | None => false
  end.

(** A text, read after the character [prev], in which every line
    boundary is a line feed that follows a sentence-final character. *)
Fixpoint breaks_closed (prev : option char) (s : str) : bool :=
  match s with
  | [] => true
  | c :: rest =>
      ((if Unicode.is_linebreak c
        then N.eqb c LF && is_terminal_opt prev
        else true)
       && breaks_closed (Some c) rest)%bool
  end.

(** A text, read after the character [prev], in which no whitespace
    follows a sentence-final character: the splitter finds no place to
    cut it. *)
Fixpoint boundary_free (prev : option char) (s : str) : bool :=
  match s with
  | [] => true
  | c :: rest =>
      (negb (is_terminal_opt prev && Unicode.is_space c)
       && boundary_free (Some c) rest)%bool
  end.

(** The character before the end of [s], or [prev] when [s] is empty. *)
Definition last_or (prev : option char) (s : str) : option char :=
  match last s with
  | Some c => Some c
  | None => prev
  end.

(** The directory part that [os.path.join] puts before a relative
    name. *)
Definition dir_prefix (output_dir : str) : str :=
  match output_dir with
  | [] => []
  | _ => if PyStr.endswith_char output_dir SLASH then output_dir
         else output_dir ++ [SLASH]
  end.

(** The start of the names of the files of start page [p]. *)
Definition page_prefix (output_dir : str) (p : Z) : str :=
  dir_prefix output_dir ++ lit "page_" ++ format_d 3 p.

(** The file [page_PPP_NNNN.txt] of the output directory. *)
Definition file_name (output_dir : str) (p i : Z) : str :=
  page_prefix output_dir p ++ lit "_" ++ format_d 4 i ++ lit ".txt".

(** How many of the names start like the files of start page [p]. *)
Definition name_count (output_dir : str) (p : Z) (names : list str) : Z :=
  Z.of_nat
    (length
       (List.filter
          (fun f => PyStr.startswith f (page_prefix output_dir p)) names)).

(** Names in which every index is covered by the count of its page. *)
Definition names_counted (output_dir : str) (names : list str) : Prop :=
  forall f, In f names ->
    exists p i, f = file_name output_dir p i /\
                i <= name_count output_dir p names.

(** The names that number the sentences of each start page from 1 on, in
    the order of the records; [seen] holds the start pages met so far. *)
Fixpoint per_page_names (output_dir : str) (seen : list Z)
    (recs : list SentenceRecord) : list str :=
  match recs with
  | [] => []
  | r :: rest =>
      file_name output_dir (page_num r)
        (Z.of_nat (count_occ Z.eq_dec seen (page_num r)) + 1)
      :: per_page_names output_dir (page_num r :: seen) rest
  end.

(** [k] leading zeros before a decimal number. *)
Definition with_zeros (k : nat) (d : Decimal.uint) : Decimal.uint :=
  Nat.iter k Decimal.D0 d.

(** * Properties *)

(** ** Whitespace and stripping *)

Lemma visible_app (s t : str) : visible (s ++ t) = visible s ++ visible t.
Proof. apply List.filter_app. Qed.

Lemma visible_rev (s : str) : visible (rev s) = rev (visible s).
Proof.
  induction s as [|c s IH]; [reflexivity|].
  cbn [rev]. rewrite visible_app, IH. cbn.
  destruct (Unicode.is_space c); cbn; [now rewrite app_nil_r | reflexivity].
Qed.

Lemma visible_lstrip (s : str) : visible (PyStr.lstrip s) = visible s.
Proof.
  induction s as [|c s IH]; [reflexivity|].
  cbn. destruct (Unicode.is_space c) eqn:E; cbn; [exact IH|].
  now rewrite E.
Qed.

Lemma visible_strip (s : str) : visible (PyStr.strip s) = visible s.
Proof.
  unfold PyStr.strip, PyStr.rstrip.
  rewrite visible_rev, visible_lstrip, visible_rev, rev_involutive.
  apply visible_lstrip.
Qed.

Lemma lstrip_head (s : str) (c : char) (r : str) :
  PyStr.lstrip s = c :: r -> Unicode.is_space c = false.
Proof.
  induction s as [|d s IH]; [discriminate|].
  cbn. destruct (Unicode.is_space d) eqn:E; [exact IH|].
  intros [= <- _]. exact E.
Qed.

Lemma lstrip_app_visible (l : str) (c : char) (r : str) :
  Unicode.is_space c = false ->
  PyStr.lstrip (l ++ c :: r) = PyStr.lstrip l ++ c :: r.
Proof.
  intros Hc. induction l as [|d l IH]; cbn.
  - now rewrite Hc.
  - destruct (Unicode.is_space d); [exact IH | reflexivity].
Qed.

Lemma last_rev (s : str) : last (rev s) = head s.
Proof. destruct s as [|c r]; [reflexivity|]. cbn. apply last_snoc. Qed.

Lemma last_as_head (s : str) : last s = head (rev s).
Proof. now rewrite <- last_rev, rev_involutive. Qed.

(** A stripped text is empty, or starts and ends with a character that
    is not whitespace. *)
Lemma strip_head (s : str) (c : char) (r : str) :
  PyStr.strip s = c :: r -> Unicode.is_space c = false.
Proof.
  unfold PyStr.strip, PyStr.rstrip.
  destruct (PyStr.lstrip s) as [|d t] eqn:E; [discriminate|].
  pose proof (lstrip_head _ _ _ E) as Hd.
  cbn [rev]. rewrite (lstrip_app_visible _ _ [] Hd), rev_app_distr.
  cbn. intros [= <- _]. exact Hd.
Qed.

Lemma strip_last (s : str) (c : char) :
  last (PyStr.strip s) = Some c -> Unicode.is_space c = false.
Proof.
  unfold PyStr.strip, PyStr.rstrip. rewrite last_rev.
  destruct (PyStr.lstrip (rev (PyStr.lstrip s))) as [|d t] eqn:E;
    [discriminate|].
  cbn. intros [= <-]. exact (lstrip_head _ _ _ E).
Qed.

Lemma strip_idem (s : str) : PyStr.strip (PyStr.strip s) = PyStr.strip s.
Proof.
  destruct (PyStr.strip s) as [|c r] eqn:E; [reflexivity|].
  pose proof (strip_head _ _ _ E) as Hc.
  unfold PyStr.strip at 1. cbn [PyStr.lstrip]. rewrite Hc.
  unfold PyStr.rstrip.
  destruct (rev (c :: r)) as [|d t] eqn:Er.
  - apply (f_equal (@length _)) in Er. rewrite length_rev in Er. discriminate.
  - assert (Hd : Unicode.is_space d = false).
    { apply (strip_last s). rewrite E, last_as_head, Er. reflexivity. }
    cbn [PyStr.lstrip]. rewrite Hd, <- Er. apply rev_involutive.
Qed.

(** ** The sentence splitter *)

Lemma terminal_visible (c : char) :
  is_terminal c = true -> Unicode.is_space c = false.
Proof.
  unfold is_terminal. rewrite !orb_true_iff, !N.eqb_eq.
  intros H. decompose [or] H; subst c; reflexivity.
Qed.

Lemma run_cons_ge (cls : char -> bool) (c : char) (s : str) (k : nat) :
  (S k <= Re.run cls (c :: s))%nat ->
  cls c = true /\ (k <= Re.run cls s)%nat.
Proof. cbn. destruct (cls c); [split; [reflexivity | lia] | lia]. Qed.

Lemma sentence_endings_Some (prev : option char) (s : str) (n : nat) :
  Re.sentence_endings prev s = Some n ->
  n = Re.run Unicode.is_space s /\
  exists p, prev = Some p /\ is_terminal p = true.
Proof.
  unfold Re.sentence_endings.
  destruct prev as [p|]; [|discriminate].
  destruct (is_terminal p) eqn:Hp; [|discriminate].
  destruct (Re.run Unicode.is_space s) eqn:Hr; [discriminate|].
  intros [= <-]. split; [reflexivity | eauto].
Qed.

Lemma visible_cons_space (c : char) (s : str) :
  Unicode.is_space c = true -> visible (c :: s) = visible s.
Proof. intros H. cbn. now rewrite H. Qed.

Lemma visible_cons (c : char) (s : str) :
  visible (c :: s) = visible [c] ++ visible s.
Proof. exact (visible_app [c] s). Qed.

(** Splitting removes whitespace only. *)
Lemma split_aux_visible (s : str) :
  forall prev skip cur,
    (skip <= Re.run Unicode.is_space s)%nat ->
    visible (concat (Re.split_aux Re.sentence_endings prev skip cur s)) =
    visible (rev cur) ++ visible s.
Proof.
  induction s as [|c rest IH]; intros prev skip cur Hskip.
  - cbn [Re.split_aux concat]. rewrite app_nil_r.
    change (visible []) with (@nil char). now rewrite app_nil_r.
  - cbn [Re.split_aux]. destruct skip as [|k].
    + destruct (Re.sentence_endings prev (c :: rest)) as [[|k]|] eqn:Hm.
      * rewrite IH by lia. cbn [rev].
        now rewrite visible_app, <- app_assoc, (visible_cons c rest).
      * apply sentence_endings_Some in Hm as [Hn _].
        assert (Hle : (S k <= Re.run Unicode.is_space (c :: rest))%nat) by lia.
        apply run_cons_ge in Hle as [Hc Hk].
        cbn [concat]. rewrite visible_app, IH by exact Hk.
        now rewrite (visible_cons_space c rest Hc).
      * rewrite IH by lia. cbn [rev].
        now rewrite visible_app, <- app_assoc, (visible_cons c rest).
    + apply run_cons_ge in Hskip as [Hc Hk].
      rewrite IH by exact Hk. now rewrite (visible_cons_space c rest Hc).
Qed.

Lemma strip_nonempty_visible (l : list str) :
  visible (concat (strip_nonempty l)) = visible (concat l).
Proof.
  induction l as [|s l IH]; [reflexivity|].
  cbn [strip_nonempty concat]. rewrite visible_app, <- (visible_strip s).
  destruct (PyStr.strip s) as [|c r]; [exact IH|].
  cbn [concat]. now rewrite visible_app, IH.
Qed.

Lemma split_into_sentences_visible (text : str) :
  visible (concat (split_into_sentences text)) = visible text.
Proof.
  unfold split_into_sentences, Re.split.
  rewrite strip_nonempty_visible, split_aux_visible by lia. reflexivity.
Qed.

(** Every sentence of the splitter is stripped and not empty. *)
Lemma strip_nonempty_stripped (l : list str) (x : str) :
  In x (strip_nonempty l) -> x <> [] /\ PyStr.strip x = x.
Proof.
  induction l as [|s l IH]; [contradiction|].
  cbn [strip_nonempty].
  destruct (PyStr.strip s) as [|c r] eqn:E; [exact IH|].
  intros [<- | Hin]; [|exact (IH Hin)].
  split; [discriminate|]. rewrite <- E. apply strip_idem.
Qed.

Lemma strip_nonempty_app (l1 l2 : list str) :
  strip_nonempty (l1 ++ l2) = strip_nonempty l1 ++ strip_nonempty l2.
Proof.
  induction l1 as [|s l1 IH]; [reflexivity|].
  cbn [strip_nonempty app].
  destruct (PyStr.strip s); [exact IH|]. now rewrite IH.
Qed.

(** On a stripped text the search for [[.!?…。？！]$] looks at the last
    character only. *)
Lemma search_terminal_stripped (x : str) :
  PyStr.strip x = x -> Re.search_terminal_at_end x = ends_terminal x.
Proof.
  intros Hx. unfold Re.search_terminal_at_end, ends_terminal.
  rewrite last_as_head.
  destruct (rev x) as [|c before] eqn:E; [reflexivity|]. cbn [head].
  assert (Hc : Unicode.is_space c = false).
  { apply (strip_last x). rewrite Hx, last_as_head, E. reflexivity. }
  destruct (N.eqb c LF) eqn:Hlf.
  - apply N.eqb_eq in Hlf. subst c. discriminate.
  - cbn. now rewrite orb_false_r.
Qed.

Lemma ends_terminal_strip (x : str) :
  ends_terminal x = true -> ends_terminal (PyStr.strip x) = true.
Proof.
  unfold ends_terminal.
  destruct (last x) as [c|] eqn:E; [|discriminate]. intros Hc.
  apply last_Some in E as [l ->].
  pose proof (terminal_visible c Hc) as Hv.
  unfold PyStr.strip, PyStr.rstrip.
  assert (Hl : PyStr.lstrip (l ++ [c]) = PyStr.lstrip l ++ [c])
    by exact (lstrip_app_visible l c [] Hv).
  rewrite Hl, rev_app_distr. cbn [rev app PyStr.lstrip]. rewrite Hv.
  cbn [rev]. rewrite last_snoc. exact Hc.
Qed.

Lemma split_aux_nonempty (m : Re.matcher) (s : str) :
  forall prev skip cur, Re.split_aux m prev skip cur s <> [].
Proof.
  induction s as [|c rest IH]; intros prev skip cur; cbn; [discriminate|].
  destruct skip; [|apply IH].
  destruct (m prev (c :: rest)) as [[|k]|]; try apply IH. discriminate.
Qed.

(** Every piece but the last ends with a sentence-final character. *)
Lemma split_aux_terminated (s : str) :
  forall prev skip cur,
    (skip <= Re.run Unicode.is_space s)%nat ->
    (skip = O -> piece_tracks prev cur) ->
    Forall (fun x => ends_terminal x = true)
      (removelast (Re.split_aux Re.sentence_endings prev skip cur s)).
Proof.
  induction s as [|c rest IH]; intros prev skip cur Hskip Htrack.
  - cbn. constructor.
  - cbn [Re.split_aux]. destruct skip as [|k].
    + specialize (Htrack eq_refl).
      assert (Hnext : piece_tracks (Some c) (c :: cur)).
      { intros p [= <-] _. reflexivity. }
      destruct (Re.sentence_endings prev (c :: rest)) as [[|k]|] eqn:Hm.
      * apply IH; [lia | intros _; exact Hnext].
      * apply sentence_endings_Some in Hm as [Hn (p & -> & Hp)].
        assert (Hle : (S k <= Re.run Unicode.is_space (c :: rest))%nat) by lia.
        apply run_cons_ge in Hle as [Hc Hk].
        pose proof (split_aux_nonempty Re.sentence_endings rest (Some c) k [])
          as Hne.
        destruct (Re.split_aux Re.sentence_endings (Some c) k [] rest)
          as [|y ys] eqn:Hs; [contradiction|].
        change (removelast (rev cur :: y :: ys))
          with (rev cur :: removelast (y :: ys)).
        constructor.
        -- unfold ends_terminal. rewrite last_rev, (Htrack p eq_refl Hp).
           exact Hp.
        -- rewrite <- Hs. apply IH; [exact Hk|].
           intros _ q [= <-] Hq. rewrite (terminal_visible _ Hq) in Hc.
           discriminate.
      * apply IH; [lia | intros _; exact Hnext].
    + apply run_cons_ge in Hskip as [Hc Hk].
      apply IH; [exact Hk|].
      intros _ q [= <-] Hq. rewrite (terminal_visible _ Hq) in Hc.
      discriminate.
Qed.

(** ** The line-break normaliser *)

Lemma normalize_line_contribution (normalized line : str) :
  normalize_line normalized line =
  normalized ++
  match PyStr.strip line with
  | [] => []
  | l => line_contribution l
  end.
Proof.
  unfold normalize_line, line_contribution.
  destruct (PyStr.strip line) as [|c r] eqn:E; [now rewrite app_nil_r|].
  rewrite <- E.
  rewrite (search_terminal_stripped (PyStr.strip line) (strip_idem line)).
  destruct (PyStr.endswith_char (PyStr.strip line) HYPHEN); [reflexivity|].
  destruct (ends_terminal (PyStr.strip line)); reflexivity.
Qed.

Lemma fold_normalize_line (lines : list str) :
  forall normalized,
    fold_left normalize_line lines normalized =
    normalized ++
    concat (List.map line_contribution
              (List.filter (fun l => match l with [] => false | _ => true end)
                 (List.map PyStr.strip lines))).
Proof.
  induction lines as [|line lines IH]; intros normalized.
  - cbn. now rewrite app_nil_r.
  - cbn [fold_left List.map List.filter].
    rewrite IH, normalize_line_contribution.
    destruct (PyStr.strip line) as [|c r].
    + now rewrite app_nil_r.
    + cbn [List.map concat]. now rewrite app_assoc.
Qed.

(** C6: the normalised text is the concatenation, over the stripped
    non-blank lines from top to bottom, of the line without its final
    hyphen, or the line and a newline when it ends with one of
    [. ! ? … 。 ？ ！], or the line and a single space otherwise; and
    "Line one-\nLine two." normalises to "Line oneLine two.\n", which
    splits into the one sentence "Line oneLine two.". *)
Theorem normalize_line_breaks_spec :
  (forall raw : str,
      normalize_line_breaks raw =
      concat (List.map line_contribution (nonblank_lines raw))) /\
  normalize_line_breaks (lit "Line one-" ++ [LF] ++ lit "Line two.") =
    lit "Line oneLine two." ++ [LF] /\
  split_into_sentences (lit "Line oneLine two." ++ [LF]) =
    [lit "Line oneLine two."].
Proof.
  split; [|split; vm_compute; reflexivity].
  intros raw. unfold normalize_line_breaks, nonblank_lines.
  now rewrite fold_normalize_line.
Qed.

(** ** The block filter and the text-area ratio *)

Lemma keep_body_blocks_filter (H hr fr : float) (blocks : list Block) :
  keep_body_blocks (PrimFloat.mul H hr)
    (PrimFloat.mul H (PrimFloat.sub 1%float fr)) blocks =
  List.filter (in_body H hr fr) blocks.
Proof.
  induction blocks as [|blk rest IH]; [reflexivity|].
  cbn [keep_body_blocks List.filter]. unfold in_body at 1.
  destruct (blk_bbox blk) as [[[[x0 y0] x1] y1]|]; [|exact IH].
  cbn [above_header below_footer].
  destruct (PrimFloat.ltb y1 (PrimFloat.mul H hr)); [exact IH|].
  destruct (PrimFloat.ltb (PrimFloat.mul H (PrimFloat.sub 1%float fr)) y0);
    [exact IH|].
  cbn. now rewrite IH.
Qed.

Lemma remove_header_footer_blocks_filter (pd : PageDict) (hr fr : float) :
  remove_header_footer_blocks pd hr fr =
  List.filter (in_body (default 0%float (pd_height pd)) hr fr)
    (default [] (pd_blocks pd)).
Proof. apply keep_body_blocks_filter. Qed.

(** No [KeyError]: every block that is left has its bounding box. *)
Lemma sum_text_area_body (H hr fr : float) (blocks : list Block) :
  forall text_area,
    sum_text_area text_area (List.filter (in_body H hr fr) blocks) =
    Some (fold_left PrimFloat.add
            (List.map block_area
               (List.filter is_text_block
                  (List.filter (in_body H hr fr) blocks)))
            text_area).
Proof.
  induction blocks as [|blk rest IH]; intros text_area; [reflexivity|].
  cbn [List.filter]. destruct (in_body H hr fr blk) eqn:Hin; [|apply IH].
  cbn [sum_text_area List.filter]. unfold is_text_block at 1.
  destruct (default (-1) (blk_type blk) =? 0); [|apply IH].
  unfold in_body in Hin. cbn [List.map fold_left]. unfold block_area at 2.
  destruct (blk_bbox blk) as [[[[x0 y0] x1] y1]|]; [|discriminate].
  rewrite IH. reflexivity.
Qed.

Lemma compute_text_block_area_ratio_total (page : Page) (pd : PageDict)
    (hr fr : float) :
  compute_text_block_area_ratio page pd hr fr =
  Some (text_area_ratio page pd hr fr).
Proof.
  unfold compute_text_block_area_ratio, text_area_ratio.
  destruct (PrimFloat.leb _ _); [reflexivity|].
  rewrite remove_header_footer_blocks_filter, sum_text_area_body.
  reflexivity.
Qed.

(** C7: the blocks that remain are those with a bounding box lying
    neither wholly above the header limit nor wholly below the footer
    limit; the ratio never raises, is the sum of the bounding-box areas of
    the remaining text blocks over width times height, and is 0 when that
    page area is not positive. *)
Theorem text_block_area_ratio_spec (page : Page) (pd : PageDict)
    (hr fr : float) :
  remove_header_footer_blocks pd hr fr =
    List.filter (in_body (default 0%float (pd_height pd)) hr fr)
      (default [] (pd_blocks pd)) /\
  compute_text_block_area_ratio page pd hr fr =
    Some (text_area_ratio page pd hr fr) /\
  (PrimFloat.leb (PrimFloat.mul (rect_width page) (rect_height page))
     0%float = true ->
   compute_text_block_area_ratio page pd hr fr = Some 0%float).
Proof.
  split; [apply remove_header_footer_blocks_filter|].
  split; [apply compute_text_block_area_ratio_total|].
  intros Harea. unfold compute_text_block_area_ratio. now rewrite Harea.
Qed.

Lemma text_block_area_ratio_spec_witness :
  compute_text_block_area_ratio flat_page (page_dict flat_page)
    0.0625%float 0.0625%float = Some 0%float.
Proof.
  apply (text_block_area_ratio_spec flat_page (page_dict flat_page)
           0.0625%float 0.0625%float).
  vm_compute. reflexivity.
Defined.

(** ** The skip-page parser *)

Lemma elem_of_py_range (lo hi n : Z) :
  n ∈ py_range lo (hi + 1) <-> lo <= n <= hi.
Proof. unfold py_range. rewrite elem_of_seqZ. lia. Qed.

Lemma parse_skip_part_spec (skips : gset Z) (part : str) (n : Z) :
  n ∈ parse_skip_part skips part <->
  n ∈ skips \/ token_page (PyStr.strip part) n.
Proof.
  unfold parse_skip_part.
  destruct (PyStr.strip part) as [|c r] eqn:E.
  { split; [auto|]. intros [H|H]; [exact H|].
    destruct H as [_ H | lo hi lo_i hi_i H]; discriminate. }
  rewrite <- E. clear E c r. set (tok := PyStr.strip part).
  destruct (PyStr.contains HYPHEN tok) eqn:Hc.
  - assert (Hbare : forall m, ~ (PyStr.contains HYPHEN tok = false /\
                                 PyStr.int tok = Some m))
      by (intros m [H _]; congruence).
    assert (Hno : ~ token_page tok n -> n ∈ skips <->
                  n ∈ skips \/ token_page tok n) by tauto.
    destruct (PyStr.split_once HYPHEN tok) as [|lo [|hi [|x xs]]] eqn:Hs;
      try (apply Hno; intros [H1 H2|lo' hi' a b H1 H2 H3 H4 H5];
           congruence).
    destruct (PyStr.int (PyStr.strip lo)) as [lo_i|] eqn:Hlo;
      [|apply Hno; intros [H1 H2|lo' hi' a b H1 H2 H3 H4 H5]; congruence].
    destruct (PyStr.int (PyStr.strip hi)) as [hi_i|] eqn:Hhi;
      [|apply Hno; intros [H1 H2|lo' hi' a b H1 H2 H3 H4 H5]; congruence].
    assert (Hrange : token_page tok n <-> lo_i <= n <= hi_i).
    { split.
      - intros [H1 H2|lo' hi' a b H1 H2 H3 H4 H5]; [congruence|].
        assert (lo' = lo /\ hi' = hi) as [-> ->] by (split; congruence).
        congruence.
      - intros H. exact (inclusive_range tok n lo hi lo_i hi_i Hc Hs Hlo Hhi H).
    }
    rewrite Hrange. destruct (Z.leb_spec lo_i hi_i).
    + rewrite elem_of_union, elem_of_list_to_set, elem_of_py_range.
      reflexivity.
    + split; [auto|]. intros [H'|H']; [exact H' | lia].
  - assert (Hbare : token_page tok n <-> PyStr.int tok = Some n).
    { split.
      - intros [H1 H2|lo' hi' a b H1 H2 H3 H4 H5]; congruence.
      - intros H. exact (bare_integer tok n Hc H). }
    rewrite Hbare. destruct (PyStr.int tok) as [num|].
    + rewrite elem_of_union, elem_of_singleton.
      split; (intros [H|H]; [left; exact H | right; congruence]).
    + split; [auto|]. intros [H|H]; [exact H | discriminate].
Qed.

Lemma fold_parse_skip_part (parts : list str) :
  forall (skips : gset Z) (n : Z),
    n ∈ fold_left parse_skip_part parts skips <->
    n ∈ skips \/
    exists tok, In tok (List.map PyStr.strip parts) /\ token_page tok n.
Proof.
  induction parts as [|part parts IH]; intros skips n; cbn [fold_left].
  - split; [auto|]. intros [H|(tok & [] & _)]. exact H.
  - rewrite IH, parse_skip_part_spec. cbn [List.map In]. split.
    + intros [[H|H]|(tok & Hin & H)]; eauto.
    + intros [H|(tok & [<-|Hin] & H)]; eauto.
Qed.

(** C9: a number is in the parsed set exactly when one of the
    comma-separated tokens stands for it, as a bare integer or as a member
    of an inclusive range lo-hi; a token that stands for nothing (it is
    malformed, or its range has lo > hi) adds nothing and the other tokens
    still count; and "1,2,5-7" parses to {1,2,5,6,7}. *)
Theorem parse_skip_pages_spec :
  (forall (skip_str : str) (n : Z),
      n ∈ parse_skip_pages skip_str <->
      exists tok, In tok (tokens skip_str) /\ token_page tok n) /\
  parse_skip_pages (lit "1,2,5-7") = list_to_set [1; 2; 5; 6; 7].
Proof.
  split.
  - intros skip_str n. unfold parse_skip_pages, tokens.
    rewrite fold_parse_skip_part. split; [|auto].
    intros [H|H]; [|exact H]. now apply not_elem_of_empty in H.
  - vm_compute. reflexivity.
Qed.

Lemma parse_skip_pages_spec_witness :
  6 ∈ parse_skip_pages (lit "1,x,5-7,9-8") /\
  8 ∉ parse_skip_pages (lit "1,x,5-7,9-8").
Proof.
  split.
  - apply (proj1 parse_skip_pages_spec). exists (lit "5-7"). split.
    + vm_compute. tauto.
    + apply (inclusive_range _ _ (lit "5") (lit "7") 5 7);
        solve [ vm_compute; reflexivity | lia ].
  - intros H. apply (proj1 parse_skip_pages_spec) in H as (tok & Hin & H).
    vm_compute in Hin.
    destruct Hin as [<-|[<-|[<-|[<-|[]]]]];
      destruct H as [H1 H2 | lo hi lo_i hi_i H1 H2 H3 H4 H5];
      vm_compute in H1; try discriminate;
      vm_compute in H2; try discriminate;
      injection H2 as <- <-; vm_compute in H3, H4;
      injection H3 as <-; injection H4 as <-; lia.
Defined.

(** ** The page filter *)

Lemma should_skip_page_decides (page : Page) (n : Z) (skips : gset Z)
    (mtl thr : Z) (images : bool) (mtr hr fr : float) :
  exists b : bool,
    should_skip_page page n skips mtl thr images mtr hr fr = Some b /\
    (b = true <->
     n ∈ skips \/
     Z.of_nat (length (PyStr.strip (page_text page))) < mtl \/
     thr <= caption_count (page_text page) \/
     (images = true /\ page_images page <> []) \/
     PrimFloat.ltb (text_area_ratio page (page_dict page) hr fr) mtr = true).
Proof.
  unfold should_skip_page, caption_count.
  rewrite compute_text_block_area_ratio_total.
  destruct (decide (n ∈ skips)) as [Hin|Hin]; [eexists; split; eauto; tauto|].
  destruct (Z.ltb_spec (Z.of_nat (length (PyStr.strip (page_text page)))) mtl)
    as [Hlen|Hlen]; [eexists; split; eauto; tauto|].
  destruct (Z.geb_spec
              (Z.of_nat (Re.findall_count Re.caption_ko (page_text page)
                         + Re.findall_count Re.caption_en (page_text page)))
              thr) as [Hcap|Hcap];
    [eexists; split; eauto; split; auto; intros _; right; right; left; lia|].
  destruct images, (page_images page) as [|img imgs] eqn:Himg; cbn [andb];
    try (eexists; split; [reflexivity|];
         split; [intros _; do 3 right; left; split; [reflexivity|discriminate]
                | reflexivity]).
  all: destruct (PrimFloat.ltb (text_area_ratio page (page_dict page) hr fr)
                   mtr) eqn:Hr;
    eexists; (split; [reflexivity|]); split; auto;
    try (intros [H|[H|[H|[[H1 H2]|H]]]];
         solve [ contradiction | lia | discriminate | congruence ]).
Qed.

(** C5: the filter never raises, and it skips exactly when the page number
    is in the skip set, or the stripped full-page text is shorter than
    [min_text_len], or the caption count reaches [table_threshold], or
    images are to be skipped and the page has one, or the text-area ratio
    is below [min_text_ratio], tried in this order; the text it reads is
    the full page text whatever [remove_header_footer] says. *)
Theorem should_skip_page_spec (page : Page) (n : Z) (skips : gset Z)
    (mtl thr : Z) (images : bool) (mtr hr fr : float) :
  (exists b : bool,
      should_skip_page page n skips mtl thr images mtr hr fr = Some b /\
      (b = true <->
       n ∈ skips \/
       Z.of_nat (length (PyStr.strip (page_text page))) < mtl \/
       thr <= caption_count (page_text page) \/
       (images = true /\ page_images page <> []) \/
       PrimFloat.ltb (text_area_ratio page (page_dict page) hr fr) mtr
         = true)) /\
  (forall rhf : bool,
      should_skip
        {| skip_pages := skips; min_text_len := mtl; table_threshold := thr;
           skip_if_image := images; min_text_ratio := mtr;
           remove_header_footer := rhf;
           header_height_ratio := hr; footer_height_ratio := fr |} page n =
      should_skip_page page n skips mtl thr images mtr hr fr).
Proof.
  split; [apply should_skip_page_decides | reflexivity].
Qed.

Lemma should_skip_page_spec_witness :
  should_skip_page caption_page 3 (list_to_set [1; 2]) 1 3 false
    0.0625%float 0.0625%float 0.0625%float = Some true.
Proof.
  destruct (proj1 (should_skip_page_spec caption_page 3 (list_to_set [1; 2])
                     1 3 false 0.0625%float 0.0625%float 0.0625%float))
    as (b & -> & Hb).
  f_equal. apply Hb. right. right. left. vm_compute. discriminate.
Defined.

Lemma should_skip_total (cfg : Settings) (page : Page) (n : Z) :
  exists b, should_skip cfg page n = Some b.
Proof.
  destruct (should_skip_page_decides page n (skip_pages cfg)
              (min_text_len cfg) (table_threshold cfg) (skip_if_image cfg)
              (min_text_ratio cfg) (header_height_ratio cfg)
              (footer_height_ratio cfg)) as (b & Hb & _).
  exists b. exact Hb.
Qed.

(** ** One page of the walk *)

(** The two ways a page ends: its last sentence is unterminated and
    becomes the fragment, or every sentence is stored and no fragment is
    left. *)
Lemma process_text_cases (n : Z) (raw : str) (st : WalkState) :
  (exists init last_sent,
      split_into_sentences (merged_text raw st) = init ++ [last_sent] /\
      Re.search_terminal_at_end last_sent = false /\
      process_text n raw st =
        {| carryover_fragment := last_sent;
           carryover_page := origin_page n st;
           records :=
             records st ++ stored last_sent (origin_page n st) n init |}) \/
  ((split_into_sentences (merged_text raw st) = [] \/
    exists init last_sent,
      split_into_sentences (merged_text raw st) = init ++ [last_sent] /\
      Re.search_terminal_at_end last_sent = true) /\
   process_text n raw st =
     {| carryover_fragment := [];
        carryover_page := cleared_page st;
        records :=
          records st ++
          stored [] (cleared_page st) n
            (split_into_sentences (merged_text raw st)) |}).
Proof.
  unfold process_text, merged_text, origin_page, cleared_page, stored.
  destruct (carryover_fragment st) as [|f0 f] eqn:Hf.
  - destruct (last (split_into_sentences (normalize_line_breaks raw)))
      as [x|] eqn:Hlast.
    + pose proof Hlast as Hl. apply last_Some in Hl as [init Hinit].
      destruct (Re.search_terminal_at_end x) eqn:Hx; cbn [negb].
      * right. split; [right; eauto|]. reflexivity.
      * left. exists init, x. split; [exact Hinit|]. split; [exact Hx|].
        rewrite Hinit, removelast_last. reflexivity.
    + right. apply last_None in Hlast. split; [left; exact Hlast|].
      reflexivity.
  - destruct (last (split_into_sentences
                      ((f0 :: f) ++ [SPACE] ++ normalize_line_breaks raw)))
      as [x|] eqn:Hlast.
    + pose proof Hlast as Hl. apply last_Some in Hl as [init Hinit].
      destruct (Re.search_terminal_at_end x) eqn:Hx; cbn [negb].
      * right. split; [right; eauto|]. reflexivity.
      * left. exists init, x. split; [exact Hinit|]. split; [exact Hx|].
        rewrite Hinit, removelast_last. reflexivity.
    + right. apply last_None in Hlast. split; [left; exact Hlast|].
      reflexivity.
Qed.

Lemma merged_text_visible (raw : str) (st : WalkState) :
  visible (merged_text raw st) =
  visible (carryover_fragment st) ++ visible (normalize_line_breaks raw).
Proof.
  unfold merged_text. destruct (carryover_fragment st) as [|f0 f];
    [reflexivity|].
  now rewrite !visible_app.
Qed.

Lemma sentences_app (a b : list SentenceRecord) :
  sentences (a ++ b) = sentences a ++ sentences b.
Proof. apply List.map_app. Qed.

Lemma sentences_stored (fragment : str) (cpage : option Z) (n : Z)
    (sents : list str) :
  sentences (stored fragment cpage n sents) = sents.
Proof.
  unfold sentences, stored. rewrite List.map_map. cbn. apply List.map_id.
Qed.

(** A page adds exactly the visible characters of its normalised text. *)
Lemma process_text_held (n : Z) (raw : str) (st : WalkState) :
  held (process_text n raw st) =
  held st ++ visible (normalize_line_breaks raw).
Proof.
  pose proof (split_into_sentences_visible (merged_text raw st)) as Hv.
  rewrite merged_text_visible in Hv. unfold held.
  destruct (process_text_cases n raw st)
    as [(init & x & Hs & _ & ->) | [_ ->]];
    cbn [records carryover_fragment];
    rewrite sentences_app, sentences_stored, concat_app, visible_app.
  - rewrite Hs, concat_app, visible_app in Hv. cbn [concat] in Hv.
    rewrite app_nil_r in Hv. rewrite <- !app_assoc. f_equal.
    exact Hv.
  - rewrite Hv. change (visible []) with (@nil char).
    now rewrite app_nil_r, <- !app_assoc.
Qed.

(** The sentences of the splitter are stripped and not empty, and all but
    the last end with a sentence-final character. *)
Lemma split_into_sentences_stripped (text x : str) :
  In x (split_into_sentences text) -> x <> [] /\ PyStr.strip x = x.
Proof. apply strip_nonempty_stripped. Qed.

Lemma strip_nonempty_terminated (l : list str) :
  Forall (fun x => ends_terminal x = true) l ->
  Forall (fun x => ends_terminal x = true) (strip_nonempty l).
Proof.
  induction 1 as [|s l Hs _ IH]; [constructor|].
  cbn [strip_nonempty]. apply ends_terminal_strip in Hs.
  destruct (PyStr.strip s); [exact IH|]. now constructor.
Qed.

Lemma split_into_sentences_terminated (text : str) (init : list str)
    (x : str) :
  split_into_sentences text = init ++ [x] ->
  Forall (fun s => ends_terminal s = true) init.
Proof.
  unfold split_into_sentences, Re.split.
  pose proof (split_aux_nonempty Re.sentence_endings text None O []) as Hne.
  pose proof (split_aux_terminated text None O [] (Nat.le_0_l _)) as Hall.
  destruct (exists_last Hne) as (pieces & lastp & Hp).
  rewrite Hp in Hall |- *. rewrite removelast_last in Hall.
  rewrite strip_nonempty_app.
  assert (Hinit : Forall (fun s => ends_terminal s = true)
                    (strip_nonempty pieces)).
  { apply strip_nonempty_terminated, Hall. intros _ p [=]. }
  cbn [strip_nonempty]. destruct (PyStr.strip lastp) as [|c r].
  - rewrite app_nil_r. intros Heq. rewrite Heq in Hinit.
    now apply Forall_app in Hinit as [H _].
  - intros Heq. apply app_inj_tail in Heq as [<- _]. exact Hinit.
Qed.

Lemma in_stored (fragment : str) (cpage : option Z) (n : Z)
    (sents : list str) (r : SentenceRecord) :
  In r (stored fragment cpage n sents) ->
  In (sentence r) sents /\
  (page_num r = n \/ cpage = Some (page_num r)).
Proof.
  unfold stored. rewrite in_map_iff. intros (sent & <- & Hin).
  split; [exact Hin|]. cbn. unfold start_page.
  destruct cpage as [p|]; [|now left].
  destruct (PyStr.startswith sent fragment); [now right | now left].
Qed.

(** The records a page adds hold sentences of the splitter. *)
Lemma process_text_records (n : Z) (raw : str) (st : WalkState) :
  exists added,
    records (process_text n raw st) = records st ++ added /\
    forall r, In r added ->
      In (sentence r) (split_into_sentences (merged_text raw st)) /\
      (page_num r = n \/
       carryover_page (process_text n raw st) = Some (page_num r)).
Proof.
  destruct (process_text_cases n raw st)
    as [(init & x & Hs & _ & ->) | [_ ->]]; cbn [records carryover_page].
  - eexists; split; [reflexivity|]. intros r Hr.
    apply in_stored in Hr as [Hin Hpg]. split; [|exact Hpg].
    rewrite Hs. apply in_or_app. now left.
  - eexists; split; [reflexivity|]. intros r Hr.
    now apply in_stored in Hr.
Qed.

Lemma process_text_clean (n : Z) (raw : str) (st : WalkState) :
  records_clean st -> records_clean (process_text n raw st).
Proof.
  intros Hst r. destruct (process_text_records n raw st) as (added & -> & Ha).
  intros [Hr|Hr]%in_app_or; [exact (Hst r Hr)|].
  apply Ha in Hr as [Hr _].
  exact (split_into_sentences_stripped _ _ Hr).
Qed.

Lemma process_text_known (P : Z -> Prop) (n : Z) (raw : str)
    (st : WalkState) :
  P n -> pages_known P st -> pages_known P (process_text n raw st).
Proof.
  intros Hn [Hpage Hrecs].
  assert (Hcarry : forall p,
             carryover_page (process_text n raw st) = Some p -> P p).
  { destruct (process_text_cases n raw st)
      as [(init & x & _ & _ & ->) | [_ ->]]; cbn [carryover_page];
      unfold origin_page, cleared_page;
      destruct (carryover_fragment st); intros p Hp;
      solve [ exact (Hpage p Hp) | now injection Hp as <- | discriminate ]. }
  split; [exact Hcarry|].
  intros r. destruct (process_text_records n raw st) as (added & -> & Ha).
  intros [Hr|Hr]%in_app_or; [exact (Hrecs r Hr)|].
  apply Ha in Hr as [_ [-> | Hp]]; [exact Hn | exact (Hcarry _ Hp)].
Qed.

(** After a page every stored sentence is terminated and the fragment,
    if there is one, is not. *)
Lemma process_text_closed (n : Z) (raw : str) (st : WalkState) :
  records_closed st ->
  records_closed (process_text n raw st) /\
  fragment_open (process_text n raw st).
Proof.
  intros Hst.
  destruct (process_text_cases n raw st)
    as [(init & x & Hs & Hx & ->) | [Hs ->]];
    unfold records_closed, fragment_open;
    cbn [records carryover_fragment].
  - pose proof (split_into_sentences_terminated _ _ _ Hs) as Hinit.
    assert (Hxs : x <> [] /\ PyStr.strip x = x).
    { apply (split_into_sentences_stripped (merged_text raw st)).
      rewrite Hs. apply in_or_app. right. now left. }
    split.
    + intros r [Hr|Hr]%in_app_or; [exact (Hst r Hr)|].
      apply in_stored in Hr as [Hr _].
      rewrite List.Forall_forall in Hinit. exact (Hinit _ Hr).
    + right. split; [apply Hxs|].
      now rewrite <- (search_terminal_stripped x (proj2 Hxs)).
  - split; [|now left].
    intros r [Hr|Hr]%in_app_or; [exact (Hst r Hr)|].
    apply in_stored in Hr as [Hr _].
    destruct Hs as [Hs | (init & x & Hs & Hx)]; [now rewrite Hs in Hr|].
    pose proof (split_into_sentences_terminated _ _ _ Hs) as Hinit.
    rewrite Hs in Hr. apply in_app_or in Hr as [Hr|[<-|[]]].
    + rewrite List.Forall_forall in Hinit. exact (Hinit _ Hr).
    + assert (Hxs : PyStr.strip x = x).
      { apply (split_into_sentences_stripped (merged_text raw st)).
        rewrite Hs. apply in_or_app. right. now left. }
      now rewrite <- (search_terminal_stripped x Hxs).
Qed.

(** ** The whole walk *)

(** The walk never raises, and it is the run of steps 3 to 7 over the
    included pages. *)
Lemma walk_run_pages (cfg : Settings) (pages : list Page) :
  forall page_index st,
    walk cfg page_index pages st =
    Some (run_pages cfg (included_pages cfg page_index pages) st).
Proof.
  induction pages as [|page rest IH]; intros page_index st; [reflexivity|].
  cbn [walk included_pages]. unfold process_page.
  destruct (should_skip_total cfg page (page_index + 1)) as [[|] ->];
    apply IH.
Qed.

Lemma run_pages_held (cfg : Settings) (numbered : list (Z * Page)) :
  forall st,
    held (run_pages cfg numbered st) =
    held st ++
    visible (concat (List.map (fun np => normalized_text cfg (snd np))
                       numbered)).
Proof.
  induction numbered as [|[n page] rest IH]; intros st.
  - cbn. now rewrite app_nil_r.
  - unfold run_pages in *. cbn [fold_left List.map concat fst snd].
    rewrite IH, process_text_held, visible_app, <- app_assoc.
    reflexivity.
Qed.

Lemma run_pages_invariant (cfg : Settings) (Inv : WalkState -> Prop)
    (numbered : list (Z * Page)) :
  (forall n page st, In (n, page) numbered -> Inv st ->
                     Inv (process_text n (raw_page_text cfg page) st)) ->
  forall st, Inv st -> Inv (run_pages cfg numbered st).
Proof.
  induction numbered as [|[n page] rest IH]; intros Hstep st Hst;
    [exact Hst|].
  unfold run_pages in *. cbn [fold_left fst snd]. apply IH.
  - intros m q st' Hin. apply Hstep. now right.
  - apply Hstep; [now left | exact Hst].
Qed.

Lemma in_included_pages (cfg : Settings) (pages : list Page) :
  forall page_index n page,
    In (n, page) (included_pages cfg page_index pages) ->
    exists i : nat,
      pages !! i = Some page /\ n = page_index + Z.of_nat i + 1 /\
      should_skip cfg page n = Some false.
Proof.
  induction pages as [|p rest IH]; intros page_index n page; [contradiction|].
  cbn [included_pages].
  assert (Hrest : In (n, page) (included_pages cfg (page_index + 1) rest) ->
                  exists i : nat,
                    (p :: rest) !! i = Some page /\
                    n = page_index + Z.of_nat i + 1 /\
                    should_skip cfg page n = Some false).
  { intros Hin. apply IH in Hin as (i & Hi & -> & Hs).
    exists (S i). split; [exact Hi|]. split; [lia | exact Hs]. }
  destruct (should_skip cfg p (page_index + 1)) as [[|]|] eqn:Hskip;
    try exact Hrest.
  intros [[= <- <-]|Hin]; [|exact (Hrest Hin)].
  exists O. split; [reflexivity|]. split; [lia | exact Hskip].
Qed.

Lemma included_pages_all (cfg : Settings) (pages : list Page) :
  forall page_index,
    (forall (i : nat) page,
        pages !! i = Some page ->
        should_skip cfg page (page_index + Z.of_nat i + 1) = Some false) ->
    List.map snd (included_pages cfg page_index pages) = pages.
Proof.
  induction pages as [|p rest IH]; intros page_index Hall; [reflexivity|].
  cbn [included_pages].
  pose proof (Hall O p eq_refl) as H0.
  replace (page_index + Z.of_nat 0 + 1) with (page_index + 1) in H0 by lia.
  rewrite H0. cbn [List.map snd]. f_equal. apply IH.
  intros i page Hi. specialize (Hall (S i) page Hi).
  now replace (page_index + 1 + Z.of_nat i + 1)
    with (page_index + Z.of_nat (S i) + 1) by lia.
Qed.

Lemma visible_join_space (l : list str) :
  visible (PyStr.join [SPACE] l) = visible (concat l).
Proof.
  induction l as [|p [|q ps] IH]; [reflexivity | |].
  - cbn [PyStr.join concat]. now rewrite app_nil_r.
  - change (PyStr.join [SPACE] (p :: q :: ps))
      with (p ++ [SPACE] ++ PyStr.join [SPACE] (q :: ps)).
    change (concat (p :: q :: ps)) with (p ++ concat (q :: ps)).
    now rewrite !visible_app, IH.
Qed.

(** ** The claims about the walk *)

Lemma walk_final (cfg : Settings) (doc : list Page) :
  walk cfg 0 doc initial_state =
    Some (run_pages cfg (included_pages cfg 0 doc) initial_state) /\
  extract_sentences_with_page doc cfg =
    Some (records (run_pages cfg (included_pages cfg 0 doc) initial_state)).
Proof.
  unfold extract_sentences_with_page. rewrite walk_run_pages.
  split; reflexivity.
Qed.

Lemma no_page_skipped_text (cfg : Settings) (doc : list Page) :
  no_page_skipped cfg doc -> included_text cfg doc = document_text cfg doc.
Proof.
  intros Hall. unfold included_text, document_text.
  rewrite <- (included_pages_all cfg doc 0) at 2 by exact Hall.
  now rewrite List.map_map.
Qed.

(** A fragment that is joined to a page whose last sentence is complete
    passes its page number to no sentence: all the records of that page
    carry the number of the page itself. *)
Lemma consumed_fragment_page (n : Z) (raw : str) (st : WalkState) :
  carryover_fragment st <> [] ->
  Re.search_terminal_at_end
    (List.last (split_into_sentences (merged_text raw st)) []) = true ->
  exists added,
    records (process_text n raw st) = records st ++ added /\
    forall r, In r added -> page_num r = n.
Proof.
  intros Hfrag Hlast.
  destruct (process_text_cases n raw st)
    as [(init & x & Hs & Hx & _) | [_ ->]].
  - rewrite Hs, List.last_last in Hlast. congruence.
  - cbn [records]. eexists; split; [reflexivity|].
    intros r Hr. apply in_stored in Hr as [_ [Hr|Hr]]; [exact Hr|].
    unfold cleared_page in Hr. destruct (carryover_fragment st);
      [contradiction | discriminate].
Qed.

(** C1 (the code departs from the claim): on the claim's own example,
    page 5 ending with "This is a sentence that wraps onto the next" and
    page 6 holding "page and ends here. Another full sentence.", the code
    stores the joined sentence with start page 6, not 5; and whenever a
    fragment is joined to a page that ends with a complete sentence, every
    record of that page carries the number of the page itself. *)
Theorem wrapped_sentence_start_page :
  extract_sentences_with_page wrap_doc wrap_settings =
    Some [ {| page_num := 6;
              sentence :=
                lit "This is a sentence that wraps onto the next page and ends here." |};
           {| page_num := 6; sentence := lit "Another full sentence." |} ] /\
  (forall (n : Z) (raw : str) (st : WalkState),
      carryover_fragment st <> [] ->
      Re.search_terminal_at_end
        (List.last (split_into_sentences (merged_text raw st)) []) = true ->
      exists added,
        records (process_text n raw st) = records st ++ added /\
        forall r, In r added -> page_num r = n).
Proof.
  split; [vm_compute; reflexivity | exact consumed_fragment_page].
Qed.

Lemma wrapped_sentence_start_page_witness :
  exists added,
    records
      (process_text 6 (lit "page and ends here. Another full sentence.")
         {| carryover_fragment :=
              lit "This is a sentence that wraps onto the next";
            carryover_page := Some 5;
            records := [] |}) = [] ++ added /\
    forall r, In r added -> page_num r = 6.
Proof.
  apply (proj2 wrapped_sentence_start_page 6
           (lit "page and ends here. Another full sentence.")
           {| carryover_fragment :=
                lit "This is a sentence that wraps onto the next";
              carryover_page := Some 5;
              records := [] |}).
  - vm_compute. discriminate.
  - vm_compute. reflexivity.
Defined.

(** The rule the code follows for start pages. *)
Lemma in_stored_rule (fragment : str) (cpage : option Z) (n : Z)
    (sents : list str) (r : SentenceRecord) :
  In r (stored fragment cpage n sents) ->
  page_num r = n \/
  (cpage = Some (page_num r) /\
   PyStr.startswith (sentence r) fragment = true).
Proof.
  unfold stored. rewrite in_map_iff. intros (sent & <- & _).
  cbn. unfold start_page. destruct cpage as [p|]; [|now left].
  destruct (PyStr.startswith sent fragment) eqn:E; [now right | now left].
Qed.

Lemma start_page_rule (n : Z) (raw : str) (st : WalkState)
    (r : SentenceRecord) :
  In r (records (process_text n raw st)) ->
  In r (records st) \/ page_num r = n \/
  (carryover_page (process_text n raw st) = Some (page_num r) /\
   PyStr.startswith (sentence r)
     (carryover_fragment (process_text n raw st)) = true).
Proof.
  destruct (process_text_cases n raw st)
    as [(init & x & _ & _ & ->) | [_ ->]];
    cbn [records carryover_page carryover_fragment];
    (intros [Hr|Hr]%in_app_or; [now left | right]);
    exact (in_stored_rule _ _ _ _ _ Hr).
Qed.

(** C2 (the code departs from the claim): on a two-page document, the
    sentence "Alpha beta." that began as the fragment of page 1 is stored
    with start page 2, and the sentence "Gamma delta." that lies wholly on
    page 2 is stored with the earlier start page 1. The rule the code
    follows instead: a record that a page adds has a start page other than
    that page only when the page leaves a fragment behind, the start page
    is the page of that new fragment, and the sentence starts with the
    text of that new fragment. *)
Theorem earlier_page_not_iff_fragment :
  extract_sentences_with_page echo_doc (plain_settings [] 1) =
    Some [ {| page_num := 2; sentence := lit "Alpha beta." |};
           {| page_num := 1; sentence := lit "Gamma delta." |} ] /\
  (forall (n : Z) (raw : str) (st : WalkState) (r : SentenceRecord),
      In r (records (process_text n raw st)) ->
      In r (records st) \/ page_num r = n \/
      (carryover_page (process_text n raw st) = Some (page_num r) /\
       PyStr.startswith (sentence r)
         (carryover_fragment (process_text n raw st)) = true)).
Proof.
  split; [vm_compute; reflexivity | exact start_page_rule].
Qed.

Lemma earlier_page_not_iff_fragment_witness :
  let st := {| carryover_fragment := lit "Alpha"; carryover_page := Some 1;
               records := [] |} in
  let r := {| page_num := 1; sentence := lit "Gamma delta." |} in
  In r (records st) \/ page_num r = 2 \/
  (carryover_page (process_text 2 (lit "beta. Gamma delta. Gamma") st)
     = Some (page_num r) /\
   PyStr.startswith (sentence r)
     (carryover_fragment (process_text 2 (lit "beta. Gamma delta. Gamma") st))
     = true).
Proof.
  intros st r.
  apply (proj2 earlier_page_not_iff_fragment 2
           (lit "beta. Gamma delta. Gamma") st r).
  vm_compute. tauto.
Defined.

(** C3, as stated, fails: a page with the lines "One." and "Two." is not
    skipped and leaves no fragment, its sentences joined by a space read
    "One. Two.", and its normalised text reads "One.\nTwo.\n". *)
Lemma roundtrip_fails :
  ~ roundtrip_as_stated (plain_settings [] 1) two_line_doc.
Proof.
  intros H.
  assert (Hall : no_page_skipped (plain_settings [] 1) two_line_doc).
  { intros [|i] page; [|discriminate]. intros [= <-]. vm_compute.
    reflexivity. }
  specialize (H Hall _ (proj1 (walk_final _ _))).
  destruct H as [k Hk]. vm_compute in Hk. discriminate.
Qed.

(** C3, amended: when no page is skipped, the walk ends, and the
    characters other than whitespace of the sentences joined by single
    spaces, followed by those of the fragment that is left, are exactly
    those of the normalised text of the whole document, in order. *)
Theorem roundtrip_visible (cfg : Settings) (doc : list Page) :
  no_page_skipped cfg doc ->
  exists st,
    walk cfg 0 doc initial_state = Some st /\
    extract_sentences_with_page doc cfg = Some (records st) /\
    visible (joined_sentences (records st)) ++
      visible (carryover_fragment st) =
    visible (document_text cfg doc).
Proof.
  intros Hall. destruct (walk_final cfg doc) as [Hwalk Hextract].
  eexists. split; [exact Hwalk|]. split; [exact Hextract|].
  unfold joined_sentences. rewrite visible_join_space.
  rewrite <- (no_page_skipped_text cfg doc Hall).
  exact (run_pages_held cfg (included_pages cfg 0 doc) initial_state).
Qed.

Lemma roundtrip_visible_witness :
  exists st,
    walk (plain_settings [] 1) 0 two_line_doc initial_state = Some st /\
    extract_sentences_with_page two_line_doc (plain_settings [] 1) =
      Some (records st) /\
    visible (joined_sentences (records st)) ++
      visible (carryover_fragment st) =
    visible (document_text (plain_settings [] 1) two_line_doc).
Proof.
  apply (roundtrip_visible (plain_settings [] 1) two_line_doc).
  intros [|i] page; [|discriminate]. intros [= <-]. vm_compute. reflexivity.
Defined.

Lemma initial_known (P : Z -> Prop) : pages_known P initial_state.
Proof. split; [discriminate | contradiction]. Qed.

Lemma run_pages_known (cfg : Settings) (numbered : list (Z * Page)) :
  pages_known (fun n => exists page, In (n, page) numbered)
    (run_pages cfg numbered initial_state).
Proof.
  apply run_pages_invariant; [|apply initial_known].
  intros n page st Hin Hst. apply process_text_known; eauto.
Qed.

(** The start page of a record is the number of an included page. *)
Lemma record_page_included (cfg : Settings) (doc : list Page)
    (r : SentenceRecord) :
  In r (records (run_pages cfg (included_pages cfg 0 doc) initial_state)) ->
  exists i : nat, exists page,
    doc !! i = Some page /\ page_num r = Z.of_nat i + 1 /\
    should_skip cfg page (page_num r) = Some false.
Proof.
  intros Hr.
  destruct (run_pages_known cfg (included_pages cfg 0 doc)) as [_ Hrecs].
  destruct (Hrecs r Hr) as [page Hin].
  apply in_included_pages in Hin as (i & Hi & Hn & Hs).
  exists i, page. split; [exact Hi|]. split; [lia | exact Hs].
Qed.

(** C4: a page that the filter skips leaves the fragment, its page and
    the records as they are; the walk is the run of the included pages
    alone, so that two documents with the same included pages give the
    same records; and no record has the number of a skipped page as its
    start page. *)
Theorem skipped_page_inert (cfg : Settings) (doc : list Page) :
  (forall (n : Z) (page : Page) (st : WalkState),
      should_skip cfg page n = Some true ->
      process_page cfg n page st = Some st) /\
  walk cfg 0 doc initial_state =
    Some (run_pages cfg (included_pages cfg 0 doc) initial_state) /\
  (forall doc' : list Page,
      included_pages cfg 0 doc' = included_pages cfg 0 doc ->
      extract_sentences_with_page doc' cfg =
      extract_sentences_with_page doc cfg) /\
  (forall (i : nat) (page : Page),
      doc !! i = Some page ->
      should_skip cfg page (Z.of_nat i + 1) = Some true ->
      forall recs r,
        extract_sentences_with_page doc cfg = Some recs ->
        In r recs -> page_num r <> Z.of_nat i + 1).
Proof.
  split; [|split; [|split]].
  - intros n page st Hskip. unfold process_page. now rewrite Hskip.
  - apply walk_final.
  - intros doc' Hsame.
    rewrite (proj2 (walk_final cfg doc')), (proj2 (walk_final cfg doc)).
    now rewrite Hsame.
  - intros i page Hi Hskip recs r Hrecs Hr Hpage.
    rewrite (proj2 (walk_final cfg doc)) in Hrecs.
    injection Hrecs as <-.
    apply record_page_included in Hr as (j & q & Hj & Hn & Hq).
    assert (j = i) as -> by lia.
    rewrite Hi in Hj. injection Hj as <-.
    rewrite Hpage in Hq. congruence.
Qed.

Lemma skipped_page_inert_witness :
  process_page gap_settings 2 (text_page [lit "Intruder text here."])
    {| carryover_fragment := lit "Alpha"; carryover_page := Some 1;
       records := [] |} =
  Some {| carryover_fragment := lit "Alpha"; carryover_page := Some 1;
          records := [] |} /\
  forall recs r,
    extract_sentences_with_page gap_doc gap_settings = Some recs ->
    In r recs -> page_num r <> 2.
Proof.
  destruct (skipped_page_inert gap_settings gap_doc)
    as (Hinert & _ & _ & Hstart).
  split.
  - apply Hinert. vm_compute. reflexivity.
  - apply (Hstart 1%nat (text_page [lit "Intruder text here."])).
    + reflexivity.
    + vm_compute. reflexivity.
Defined.

(** C8, as stated, fails: the page with the lines "co-" and "op." is
    included and leaves no fragment, yet the hyphen of its text is in no
    record. *)
Lemma hyphen_lost_without_fragment :
  ~ only_fragment_lost (plain_settings [] 1) hyphen_doc.
Proof.
  intros H.
  specialize (H _ (proj1 (walk_final _ _)) eq_refl 1
                (text_page [lit "co-"; lit "op."]) HYPHEN).
  assert (Hin : In HYPHEN (concat (sentences (records
                  (run_pages (plain_settings [] 1)
                     (included_pages (plain_settings [] 1) 0 hyphen_doc)
                     initial_state))))).
  { apply H.
    - vm_compute. left. reflexivity.
    - vm_compute. tauto.
    - reflexivity. }
  vm_compute in Hin. intuition discriminate.
Qed.

Lemma run_pages_closed (cfg : Settings) (numbered : list (Z * Page)) :
  records_closed (run_pages cfg numbered initial_state) /\
  fragment_open (run_pages cfg numbered initial_state).
Proof.
  apply (run_pages_invariant cfg
           (fun st => records_closed st /\ fragment_open st)).
  - intros n page st _ [Hst _]. now apply process_text_closed.
  - split; [intros r [] | now left].
Qed.

(** C8, amended: the walk ends and its records are the result; every
    record ends with a sentence-final character and the fragment that is
    left, if any, does not, so it is none of the records; and the
    characters other than whitespace of the records, followed by those of
    that fragment, are exactly those of the normalised text of the
    included pages, in order. *)
Theorem residual_fragment_dropped (cfg : Settings) (doc : list Page) :
  exists st,
    walk cfg 0 doc initial_state = Some st /\
    extract_sentences_with_page doc cfg = Some (records st) /\
    (forall r, In r (records st) -> ends_terminal (sentence r) = true) /\
    (carryover_fragment st = [] \/
     (PyStr.strip (carryover_fragment st) = carryover_fragment st /\
      ends_terminal (carryover_fragment st) = false)) /\
    visible (concat (sentences (records st))) ++
      visible (carryover_fragment st) =
    visible (included_text cfg doc).
Proof.
  destruct (walk_final cfg doc) as [Hwalk Hextract].
  destruct (run_pages_closed cfg (included_pages cfg 0 doc))
    as [Hclosed Hopen].
  eexists. split; [exact Hwalk|]. split; [exact Hextract|].
  split; [exact Hclosed|]. split; [exact Hopen|].
  exact (run_pages_held cfg (included_pages cfg 0 doc) initial_state).
Qed.

Lemma residual_fragment_dropped_witness :
  exists st,
    walk (plain_settings [] 1) 0 [text_page [lit "Done. Not done"]]
      initial_state = Some st /\
    carryover_fragment st = lit "Not done" /\
    forall r, In r (records st) -> sentence r <> carryover_fragment st.
Proof.
  destruct (residual_fragment_dropped (plain_settings [] 1)
              [text_page [lit "Done. Not done"]])
    as (st & Hwalk & _ & Hclosed & Hopen & _).
  exists st. split; [exact Hwalk|].
  assert (Hfrag : carryover_fragment st = lit "Not done").
  { vm_compute in Hwalk. injection Hwalk as <-. reflexivity. }
  split; [exact Hfrag|].
  intros r Hr Heq. apply Hclosed in Hr. rewrite Heq in Hr.
  destruct Hopen as [Hnil | [_ Hopen]]; [|congruence].
  rewrite Hfrag in Hnil. discriminate.
Defined.

Lemma run_pages_clean (cfg : Settings) (numbered : list (Z * Page)) :
  records_clean (run_pages cfg numbered initial_state).
Proof.
  apply run_pages_invariant.
  - intros n page st _. apply process_text_clean.
  - intros r [].
Qed.

(** C10: the walk ends, and the sentence of every record is not empty and
    is its own stripped form: its first and last characters are not
    whitespace. *)
Theorem records_stripped (cfg : Settings) (doc : list Page) :
  exists recs,
    extract_sentences_with_page doc cfg = Some recs /\
    forall r, In r recs ->
      sentence r <> [] /\
      PyStr.strip (sentence r) = sentence r /\
      (forall c, head (sentence r) = Some c -> Unicode.is_space c = false) /\
      (forall c, last (sentence r) = Some c -> Unicode.is_space c = false).
Proof.
  eexists. split; [exact (proj2 (walk_final cfg doc))|].
  intros r Hr. apply run_pages_clean in Hr as [Hne Hstrip].
  split; [exact Hne|]. split; [exact Hstrip|]. split.
  - intros c Hc. apply head_Some in Hc as [l Hl].
    apply (strip_head (sentence r) c l). now rewrite Hstrip.
  - intros c Hc. apply (strip_last (sentence r)). now rewrite Hstrip.
Qed.

Lemma records_stripped_witness :
  exists recs,
    extract_sentences_with_page gap_doc gap_settings = Some recs /\
    forall r, In r recs -> sentence r <> [].
Proof.
  destruct (records_stripped gap_settings gap_doc) as (recs & Hrecs & Hall).
  exists recs. split; [exact Hrecs|].
  intros r Hr. exact (proj1 (Hall r Hr)).
Defined.

(** * Further properties of the code *)

(** ** Characters that the string operations keep *)

Lemma in_lstrip (s : str) (c : char) : In c (PyStr.lstrip s) -> In c s.
Proof.
  induction s as [|d s IH]; [contradiction|].
  cbn. destruct (Unicode.is_space d); [right; auto | auto].
Qed.

Lemma in_strip (s : str) (c : char) : In c (PyStr.strip s) -> In c s.
Proof.
  unfold PyStr.strip, PyStr.rstrip. rewrite <- in_rev. intros H.
  apply in_lstrip in H. rewrite <- in_rev in H. now apply in_lstrip.
Qed.

Lemma in_int_lskip (s : str) (c : char) : In c (PyStr.int_lskip s) -> In c s.
Proof.
  induction s as [|d s IH]; [contradiction|].
  cbn. destruct (PyStr.int_space d); [right; auto | auto].
Qed.

Lemma in_split_aux (sep : char) (s : str) :
  forall cur piece c,
    In piece (PyStr.split_aux sep cur s) -> In c piece ->
    In c cur \/ In c s.
Proof.
  induction s as [|d s IH]; intros cur piece c; cbn [PyStr.split_aux].
  - intros [<-|[]] Hc. left. now apply in_rev.
  - destruct (N.eqb d sep).
    + intros [<-|Hp] Hc; [left; now apply in_rev|].
      destruct (IH [] piece c Hp Hc) as [[]|H]. right. now right.
    + intros Hp Hc. destruct (IH (d :: cur) piece c Hp Hc) as [[<-|H]|H].
      * right. now left.
      * now left.
      * right. now right.
Qed.

Lemma in_split (sep : char) (s piece : str) (c : char) :
  In piece (PyStr.split sep s) -> In c piece -> In c s.
Proof.
  intros Hp Hc. destruct (in_split_aux sep s [] piece c Hp Hc) as [[]|H].
  exact H.
Qed.

Lemma split_once_aux_parts (sep : char) (s : str) :
  forall cur lo hi,
    PyStr.split_once_aux sep cur s = [lo; hi] ->
    (forall c, In c lo -> c <> sep -> In c cur \/ In c s) /\
    (forall c, In c lo -> In c cur \/ c <> sep) /\
    (forall c, In c hi -> In c s).
Proof.
  induction s as [|d s IH]; intros cur lo hi; cbn [PyStr.split_once_aux];
    [discriminate|].
  destruct (N.eqb_spec d sep) as [->|Hd].
  - intros [= <- <-]. repeat split.
    + intros c Hc _. left. now apply in_rev.
    + intros c Hc. left. now apply in_rev.
    + intros c Hc. now right.
  - intros H. destruct (IH (d :: cur) lo hi H) as (H1 & H2 & H3).
    repeat split.
    + intros c Hc Hne. destruct (H1 c Hc Hne) as [[<-|Hin]|Hin].
      * right. now left.
      * now left.
      * right. now right.
    + intros c Hc. destruct (H2 c Hc) as [[<-|Hin]|Hne].
      * now right.
      * now left.
      * now right.
    + intros c Hc. right. exact (H3 c Hc).
Qed.

(** The part before the first hyphen holds no hyphen, and both parts
    hold characters of the token only. *)
Lemma split_once_parts (sep : char) (s lo hi : str) :
  PyStr.split_once sep s = [lo; hi] ->
  ~ In sep lo /\
  (forall c, In c lo -> In c s) /\ (forall c, In c hi -> In c s).
Proof.
  intros H. destruct (split_once_aux_parts sep s [] lo hi H) as (H1 & H2 & H3).
  repeat split.
  - intros Hin. destruct (H2 sep Hin) as [[]|Hne]. now apply Hne.
  - intros c Hc. destruct (N.eq_dec c sep) as [->|Hne].
    + destruct (H2 sep Hc) as [[]|Hne]. now contradiction Hne.
    + destruct (H1 c Hc Hne) as [[]|Hin]. exact Hin.
  - exact H3.
Qed.

Lemma contains_In (c : char) (s : str) :
  PyStr.contains c s = true <-> In c s.
Proof.
  unfold PyStr.contains. rewrite existsb_exists. split.
  - intros (x & Hx & Heq). apply N.eqb_eq in Heq. now subst x.
  - intros H. exists c. split; [exact H | apply N.eqb_refl].
Qed.

(** ** What [int()] accepts *)

Lemma to_decimal_range (c : char) (d : Z) :
  Unicode.to_decimal c = Some d -> 0 <= d <= 9.
Proof.
  unfold Unicode.to_decimal.
  destruct (List.find _ Unicode.decimal_bases) as [b|] eqn:E; [|discriminate].
  apply List.find_some in E as [_ E]. unfold Unicode.in_range in E.
  apply andb_true_iff in E as [E1 E2].
  apply N.leb_le in E1, E2. intros [= <-]. lia.
Qed.

Lemma int_digits_nonneg (s : str) :
  forall acc after v,
    0 <= acc -> PyStr.int_digits acc after s = Some v -> 0 <= v.
Proof.
  induction s as [|c s IH]; intros acc after v Hacc; cbn [PyStr.int_digits].
  - destruct after; [intros [= <-]; exact Hacc | discriminate].
  - destruct (Unicode.to_decimal c) as [d|] eqn:Hd.
    + apply to_decimal_range in Hd. apply IH. lia.
    + destruct (N.eqb c UNDERSCORE && after)%bool; [|discriminate].
      now apply IH.
Qed.

(** A number that [int()] reads holds a digit. *)
Lemma int_digits_digit (s : str) :
  forall acc after v,
    PyStr.int_digits acc after s = Some v ->
    after = true \/ exists c, In c s /\ Unicode.is_digit c = true.
Proof.
  induction s as [|c s IH]; intros acc after v; cbn [PyStr.int_digits].
  - destruct after; [now left | discriminate].
  - destruct (Unicode.to_decimal c) as [d|] eqn:Hd.
    + intros _. right. exists c. split; [now left|].
      unfold Unicode.is_digit. now rewrite Hd.
    + destruct (N.eqb c UNDERSCORE && after)%bool; [|discriminate].
      intros H. apply IH in H as [H|(x & Hx & Hdig)]; [discriminate|].
      right. exists x. split; [now right | exact Hdig].
Qed.

Lemma int_unsigned_facts (s : str) (v : Z) :
  PyStr.int_unsigned s = Some v ->
  0 <= v /\ exists c, In c s /\ Unicode.is_digit c = true.
Proof.
  unfold PyStr.int_unsigned. destruct (_ <? _); [discriminate|].
  intros H. split; [now apply (int_digits_nonneg s 0 false)|].
  apply int_digits_digit in H as [H|H]; [discriminate | exact H].
Qed.

Lemma int_facts (s : str) (v : Z) :
  PyStr.int s = Some v ->
  (v < 0 -> In HYPHEN s) /\
  exists c, In c s /\ Unicode.is_digit c = true.
Proof.
  unfold PyStr.int.
  destruct (rev (PyStr.int_lskip (rev (PyStr.int_lskip s))))
    as [|c rest] eqn:E; [discriminate|].
  assert (Hsub : forall x, In x (c :: rest) -> In x s).
  { intros x Hx. rewrite <- E in Hx. apply in_rev in Hx.
    apply in_int_lskip in Hx. apply in_rev in Hx.
    now apply in_int_lskip in Hx. }
  destruct (N.eqb c PLUS).
  - intros H. apply int_unsigned_facts in H as [Hv (x & Hx & Hd)].
    split; [lia|]. exists x. split; [apply Hsub; now right | exact Hd].
  - destruct (N.eqb_spec c HYPHEN) as [->|Hne].
    + destruct (PyStr.int_unsigned rest) as [u|] eqn:Hu; [|discriminate].
      apply int_unsigned_facts in Hu as [_ (x & Hx & Hd)].
      intros _. split; [intros _; apply Hsub; now left|].
      exists x. split; [apply Hsub; now right | exact Hd].
    + intros H. apply int_unsigned_facts in H as [Hv (x & Hx & Hd)].
      split; [lia|]. exists x. split; [now apply Hsub | exact Hd].
Qed.

(** ** More on the skip-page parser *)

Lemma token_page_facts (tok : str) (n : Z) :
  token_page tok n ->
  0 <= n /\ exists c, In c tok /\ Unicode.is_digit c = true.
Proof.
  intros [Hc Hint | lo hi lo_i hi_i Hc Hs Hlo Hhi Hn].
  - apply int_facts in Hint as [Hneg Hdig]. split; [|exact Hdig].
    destruct (Z.lt_ge_cases n 0) as [Hlt|Hge]; [|exact Hge].
    apply Hneg, contains_In in Hlt. congruence.
  - apply split_once_parts in Hs as (Hno & Hlo_sub & _).
    apply int_facts in Hlo as [Hneg (x & Hx & Hd)]. split.
    + destruct (Z.lt_ge_cases lo_i 0) as [Hlt|Hge]; [|lia].
      apply Hneg, in_strip in Hlt. contradiction.
    + exists x. split; [apply Hlo_sub; now apply in_strip | exact Hd].
Qed.

Lemma in_parse_skip_pages (skip_str : str) (n : Z) :
  n ∈ parse_skip_pages skip_str <->
  exists tok, In tok (tokens skip_str) /\ token_page tok n.
Proof.
  unfold parse_skip_pages, tokens. rewrite fold_parse_skip_part.
  split; [|auto]. intros [H|H]; [|exact H].
  now apply not_elem_of_empty in H.
Qed.

Lemma in_tokens (skip_str tok : str) (c : char) :
  In tok (tokens skip_str) -> In c tok -> In c skip_str.
Proof.
  unfold tokens. rewrite in_map_iff. intros (part & <- & Hpart) Hc.
  apply in_strip in Hc. exact (in_split COMMA skip_str part c Hpart Hc).
Qed.

(** X1: the parser never yields a negative page number, whatever the
    text: a token that starts with a minus sign is read as a range with an
    empty lower end and is dropped. *)
Theorem parse_skip_pages_nonneg (skip_str : str) (n : Z) :
  n ∈ parse_skip_pages skip_str -> 0 <= n.
Proof.
  intros H. apply in_parse_skip_pages in H as (tok & _ & H).
  now apply token_page_facts in H.
Qed.

Lemma parse_skip_pages_nonneg_witness : 0 <= 6.
Proof.
  apply (parse_skip_pages_nonneg (lit "-5,5-7")).
  vm_compute. reflexivity.
Defined.

(** X2: a text without any decimal digit, such as the empty text, blanks
    or words, names no page to skip. *)
Theorem parse_skip_pages_no_digit (skip_str : str) :
  (forall c, In c skip_str -> Unicode.is_digit c = false) ->
  parse_skip_pages skip_str = ∅.
Proof.
  intros Hno. apply set_eq. intros n. split; [|intros H; set_solver].
  intros H. apply in_parse_skip_pages in H as (tok & Htok & H).
  apply token_page_facts in H as [_ (c & Hc & Hd)].
  rewrite (Hno c (in_tokens _ _ _ Htok Hc)) in Hd. discriminate.
Qed.

Lemma parse_skip_pages_no_digit_witness :
  parse_skip_pages (lit " , a-b,- ") = ∅.
Proof.
  apply parse_skip_pages_no_digit.
  intros c Hc. vm_compute in Hc.
  repeat (destruct Hc as [<-|Hc]; [reflexivity|]). contradiction.
Defined.

Lemma split_aux_app (sep : char) (s1 s2 : str) :
  forall cur,
    PyStr.split_aux sep cur (s1 ++ sep :: s2) =
    PyStr.split_aux sep cur s1 ++ PyStr.split sep s2.
Proof.
  induction s1 as [|c s1 IH]; intros cur; cbn [PyStr.split_aux app].
  - now rewrite N.eqb_refl.
  - destruct (N.eqb c sep); [cbn; f_equal|]; apply IH.
Qed.

(** X3: a comma splits the work: the pages of [a,b] are the pages of [a]
    together with the pages of [b]. *)
Theorem parse_skip_pages_comma (s1 s2 : str) :
  parse_skip_pages (s1 ++ [COMMA] ++ s2) =
  parse_skip_pages s1 ∪ parse_skip_pages s2.
Proof.
  apply set_eq. intros n.
  rewrite elem_of_union, !in_parse_skip_pages. unfold tokens, PyStr.split.
  cbn [app]. rewrite split_aux_app, List.map_app. split.
  - intros (tok & [H|H]%in_app_or & Ht); [left | right]; eauto.
  - intros [(tok & H & Ht)|(tok & H & Ht)]; exists tok;
      (split; [apply in_or_app; auto | exact Ht]).
Qed.

(** ** More on the page filter *)

(** X4: stricter settings never let a page through that laxer ones skip:
    a page that is skipped stays skipped when the skip set grows, the
    minimal text length rises, the caption threshold falls or the image
    check is switched on. *)
Theorem should_skip_page_monotone (page : Page) (n : Z)
    (skips skips' : gset Z) (mtl mtl' thr thr' : Z) (images images' : bool)
    (mtr hr fr : float) :
  skips ⊆ skips' -> mtl <= mtl' -> thr' <= thr ->
  (images = true -> images' = true) ->
  should_skip_page page n skips mtl thr images mtr hr fr = Some true ->
  should_skip_page page n skips' mtl' thr' images' mtr hr fr = Some true.
Proof.
  intros Hskips Hmtl Hthr Himg Hskip.
  destruct (should_skip_page_decides page n skips mtl thr images mtr hr fr)
    as (b & Hb & Hiff).
  destruct (should_skip_page_decides page n skips' mtl' thr' images' mtr hr fr)
    as (b' & -> & Hiff').
  rewrite Hb in Hskip. injection Hskip as ->. f_equal. apply Hiff'.
  destruct (proj1 Hiff eq_refl) as [H|[H|[H|[[H1 H2]|H]]]].
  - left. now apply Hskips.
  - right; left. lia.
  - right; right; left. lia.
  - right; right; right; left. split; [now apply Himg | exact H2].
  - right; right; right; right. exact H.
Qed.

Lemma should_skip_page_monotone_witness :
  should_skip_page caption_page 3 (list_to_set [1; 2]) 5 2 true
    0.0625%float 0.0625%float 0.0625%float = Some true.
Proof.
  apply (should_skip_page_monotone caption_page 3 ∅ (list_to_set [1; 2])
           1 5 3 2 false true).
  - apply empty_subseteq.
  - lia.
  - lia.
  - discriminate.
  - vm_compute. reflexivity.
Defined.

Lemma included_pages_none (cfg : Settings) (pages : list Page) :
  forall page_index,
    (forall page n, should_skip cfg page n = Some true) ->
    included_pages cfg page_index pages = [].
Proof.
  induction pages as [|p rest IH]; intros page_index Hall; [reflexivity|].
  cbn [included_pages]. rewrite Hall. now apply IH.
Qed.

(** X5: a caption threshold of zero or less skips every page, so that
    nothing at all is extracted from any document. *)
Theorem zero_threshold_extracts_nothing (doc : list Page) (cfg : Settings) :
  table_threshold cfg <= 0 ->
  extract_sentences_with_page doc cfg = Some [].
Proof.
  intros Hthr. rewrite (proj2 (walk_final cfg doc)).
  rewrite included_pages_none; [reflexivity|].
  intros page n. unfold should_skip.
  destruct (should_skip_page_decides page n (skip_pages cfg)
              (min_text_len cfg) (table_threshold cfg) (skip_if_image cfg)
              (min_text_ratio cfg) (header_height_ratio cfg)
              (footer_height_ratio cfg)) as (b & -> & Hiff).
  f_equal. apply Hiff. right; right; left. unfold caption_count. lia.
Qed.

Lemma zero_threshold_extracts_nothing_witness :
  extract_sentences_with_page two_line_doc
    {| skip_pages := ∅; min_text_len := 0; table_threshold := 0;
       skip_if_image := false; min_text_ratio := 0%float;
       remove_header_footer := false;
       header_height_ratio := 0%float; footer_height_ratio := 0%float |}
  = Some [].
Proof.
  apply zero_threshold_extracts_nothing. cbn. lia.
Defined.

(** ** More on the page walk *)

Lemma included_pages_app (cfg : Settings) (a b : list Page) :
  forall page_index,
    included_pages cfg page_index (a ++ b) =
    included_pages cfg page_index a ++
    included_pages cfg (page_index + Z.of_nat (length a)) b.
Proof.
  induction a as [|p a IH]; intros page_index.
  - cbn. f_equal. lia.
  - cbn [app included_pages length]. rewrite IH.
    replace (page_index + 1 + Z.of_nat (length a))
      with (page_index + Z.of_nat (S (length a))) by lia.
    now destruct (should_skip cfg p (page_index + 1)) as [[|]|].
Qed.

Lemma run_pages_app (cfg : Settings) (l1 l2 : list (Z * Page))
    (st : WalkState) :
  run_pages cfg (l1 ++ l2) st = run_pages cfg l2 (run_pages cfg l1 st).
Proof. apply fold_left_app. Qed.

Lemma run_pages_records_grow (cfg : Settings) (l : list (Z * Page)) :
  forall st, exists more,
    records (run_pages cfg l st) = records st ++ more.
Proof.
  induction l as [|[n page] l IH]; intros st.
  - exists []. now rewrite app_nil_r.
  - unfold run_pages in *. cbn [fold_left fst snd].
    destruct (IH (process_text n (raw_page_text cfg page) st)) as [more ->].
    destruct (process_text_records n (raw_page_text cfg page) st)
      as (added & -> & _).
    exists (added ++ more). now rewrite app_assoc.
Qed.

(** X6: later pages never change what earlier pages gave: the records of
    the first pages of a document are the first records of the whole
    document. *)
Theorem extraction_is_incremental (a b : list Page) (cfg : Settings) :
  exists recs more,
    extract_sentences_with_page a cfg = Some recs /\
    extract_sentences_with_page (a ++ b) cfg = Some (recs ++ more).
Proof.
  rewrite (proj2 (walk_final cfg a)), (proj2 (walk_final cfg (a ++ b))).
  rewrite included_pages_app, run_pages_app.
  destruct (run_pages_records_grow cfg
              (included_pages cfg (0 + Z.of_nat (length a)) b)
              (run_pages cfg (included_pages cfg 0 a) initial_state))
    as [more Hmore].
  eexists _, more. split; [reflexivity|]. now rewrite Hmore.
Qed.

Lemma process_text_closed_page (cfg : Settings) (n : Z) (page : Page)
    (st : WalkState) :
  carryover_fragment st = [] -> carryover_page st = None ->
  page_closed cfg page = true ->
  process_text n (raw_page_text cfg page) st =
    {| carryover_fragment := [];
       carryover_page := None;
       records :=
         records st ++
         page_records n (split_into_sentences (normalized_text cfg page)) |}.
Proof.
  intros Hfrag Hpage Hclosed. unfold page_closed, normalized_text in Hclosed.
  assert (Hmerged : merged_text (raw_page_text cfg page) st =
                    normalize_line_breaks (raw_page_text cfg page))
    by (unfold merged_text; now rewrite Hfrag).
  destruct (process_text_cases n (raw_page_text cfg page) st)
    as [(init & x & Hs & Hx & _) | [_ ->]].
  - rewrite Hmerged in Hs. rewrite Hs, last_snoc in Hclosed. congruence.
  - unfold cleared_page. rewrite Hfrag, Hpage, Hmerged. reflexivity.
Qed.

Lemma run_pages_closed_pages (cfg : Settings) (numbered : list (Z * Page)) :
  forall st,
    carryover_fragment st = [] -> carryover_page st = None ->
    (forall n page, In (n, page) numbered -> page_closed cfg page = true) ->
    run_pages cfg numbered st =
      {| carryover_fragment := [];
         carryover_page := None;
         records := records st ++ records_by_page cfg numbered |}.
Proof.
  induction numbered as [|[n page] rest IH]; intros st Hfrag Hpage Hall.
  - cbn. rewrite app_nil_r. destruct st; cbn in *; congruence.
  - unfold run_pages in *. cbn [fold_left fst snd].
    rewrite (process_text_closed_page cfg n page st Hfrag Hpage)
      by (apply (Hall n); now left).
    rewrite IH; cbn [carryover_fragment carryover_page records];
      try reflexivity.
    + unfold records_by_page. cbn [List.map concat fst snd].
      now rewrite app_assoc.
    + intros m q Hin. apply (Hall m). now right.
Qed.

(** X7: when the last sentence of every included page is complete, no
    sentence crosses a page boundary and the result is the plain reading:
    the sentences of the included pages in order, each with the number of
    the page it stands on. *)
Theorem closed_pages_by_page (doc : list Page) (cfg : Settings) :
  (forall n page,
      In (n, page) (included_pages cfg 0 doc) ->
      page_closed cfg page = true) ->
  extract_sentences_with_page doc cfg =
    Some (records_by_page cfg (included_pages cfg 0 doc)).
Proof.
  intros Hall. rewrite (proj2 (walk_final cfg doc)).
  now rewrite (run_pages_closed_pages cfg _ initial_state eq_refl eq_refl Hall).
Qed.

Lemma closed_pages_by_page_witness :
  extract_sentences_with_page two_line_doc (plain_settings [] 1) =
    Some (records_by_page (plain_settings [] 1)
            (included_pages (plain_settings [] 1) 0 two_line_doc)).
Proof.
  apply closed_pages_by_page.
  intros n page Hin. vm_compute in Hin.
  destruct Hin as [[= <- <-]|[]]. vm_compute. reflexivity.
Defined.

(** X8: the start page of every record is the number of a page of the
    document: it lies between 1 and the number of pages. *)
Theorem start_page_in_document (doc : list Page) (cfg : Settings)
    (recs : list SentenceRecord) (r : SentenceRecord) :
  extract_sentences_with_page doc cfg = Some recs -> In r recs ->
  1 <= page_num r <= Z.of_nat (length doc).
Proof.
  rewrite (proj2 (walk_final cfg doc)). intros [= <-] Hr.
  apply record_page_included in Hr as (i & page & Hi & -> & _).
  apply lookup_lt_Some in Hi. lia.
Qed.

Lemma start_page_in_document_witness : 1 <= 3 <= 3.
Proof.
  apply (start_page_in_document gap_doc gap_settings
           [ {| page_num := 3; sentence := lit "Alpha beta." |};
             {| page_num := 3; sentence := lit "Gamma." |} ]
           {| page_num := 3; sentence := lit "Gamma." |}).
  - vm_compute. reflexivity.
  - right. left. reflexivity.
Defined.

(** ** More on the line-break normaliser *)

Lemma last_or_cons (prev : option char) (c : char) (s : str) :
  last_or prev (c :: s) = last_or (Some c) s.
Proof.
  unfold last_or. destruct s as [|d s]; [reflexivity|].
  rewrite last_cons_cons.
  destruct (last (d :: s)) eqn:E; [reflexivity|].
  apply last_None in E. discriminate.
Qed.

Lemma breaks_closed_app (x y : str) :
  forall prev,
    breaks_closed prev (x ++ y) =
    (breaks_closed prev x && breaks_closed (last_or prev x) y)%bool.
Proof.
  induction x as [|c x IH]; intros prev; [reflexivity|].
  cbn [app breaks_closed]. now rewrite IH, last_or_cons, andb_assoc.
Qed.

Lemma breaks_closed_plain (s : str) :
  forall prev,
    (forall c, In c s -> Unicode.is_linebreak c = false) ->
    breaks_closed prev s = true.
Proof.
  induction s as [|c s IH]; intros prev Hno; [reflexivity|].
  cbn [breaks_closed]. rewrite (Hno c) by now left.
  apply IH. intros d Hd. apply Hno. now right.
Qed.

Lemma in_removelast (s : str) (c : char) : In c (removelast s) -> In c s.
Proof.
  induction s as [|d [|e s] IH]; [contradiction | contradiction |].
  intros [<-|H]; [now left | right; now apply IH].
Qed.

Lemma line_contribution_breaks (prev : option char) (line : str) :
  (forall c, In c line -> Unicode.is_linebreak c = false) ->
  breaks_closed prev (line_contribution line) = true.
Proof.
  intros Hno. unfold line_contribution.
  destruct (PyStr.endswith_char line HYPHEN).
  - apply breaks_closed_plain. intros c Hc. apply Hno.
    now apply in_removelast.
  - destruct (ends_terminal line) eqn:Hend.
    + rewrite breaks_closed_app, (breaks_closed_plain line prev Hno).
      unfold ends_terminal in Hend. unfold last_or.
      destruct (last line) as [p|]; [|discriminate].
      cbn. now rewrite Hend.
    + apply breaks_closed_plain. intros c [Hc| [<-|[]]]%in_app_or;
        [now apply Hno | reflexivity].
Qed.

Lemma contributions_breaks (lines : list str) :
  forall prev,
    (forall line c, In line lines -> In c line ->
                    Unicode.is_linebreak c = false) ->
    breaks_closed prev (concat (List.map line_contribution lines)) = true.
Proof.
  induction lines as [|line lines IH]; intros prev Hno; [reflexivity|].
  cbn [List.map concat]. rewrite breaks_closed_app.
  rewrite line_contribution_breaks by (intros c; apply Hno; now left).
  apply IH. intros l c Hl. apply Hno. now right.
Qed.

(** The lines of [splitlines] hold characters of the text, and none of
    them is a line boundary. *)
Lemma in_splitlines_aux (s : str) :
  forall after_cr cur line c,
    In line (PyStr.splitlines_aux after_cr cur s) -> In c line ->
    In c cur \/ (In c s /\ Unicode.is_linebreak c = false).
Proof.
  induction s as [|d s IH]; intros after_cr cur line c;
    cbn [PyStr.splitlines_aux].
  - destruct cur as [|e cur]; [contradiction|].
    intros [<-|[]] Hc. left. now apply in_rev.
  - assert (Hstep : forall after cur',
               (forall x, In x cur' -> In x cur \/
                                       (x = d /\ Unicode.is_linebreak d = false)) ->
               In line (PyStr.splitlines_aux after cur' s) -> In c line ->
               In c cur \/ (In c (d :: s) /\ Unicode.is_linebreak c = false)).
    { intros after cur' Hcur Hl Hc.
      destruct (IH after cur' line c Hl Hc) as [Hin|[Hin Hlb]].
      - destruct (Hcur c Hin) as [H|[-> H]]; [now left|].
        right. split; [now left | exact H].
      - right. split; [now right | exact Hlb]. }
    destruct (after_cr && N.eqb d 10)%bool.
    + apply Hstep. intros x Hx. now left.
    + destruct (Unicode.is_linebreak d) eqn:Hd.
      * intros [<-|Hl] Hc; [left; now apply in_rev|].
        apply (Hstep _ [] ltac:(intros x []) Hl Hc).
      * apply Hstep. intros x [<-|Hx]; [right; now split | now left].
Qed.

Lemma in_splitlines (s line : str) (c : char) :
  In line (PyStr.splitlines s) -> In c line ->
  In c s /\ Unicode.is_linebreak c = false.
Proof.
  intros Hl Hc.
  destruct (in_splitlines_aux s false [] line c Hl Hc) as [[]|H]. exact H.
Qed.

Lemma in_nonblank_lines (raw line : str) (c : char) :
  In line (nonblank_lines raw) -> In c line ->
  In c raw /\ Unicode.is_linebreak c = false.
Proof.
  unfold nonblank_lines. rewrite filter_In, in_map_iff.
  intros [(l & <- & Hl) _] Hc. apply in_strip in Hc.
  exact (in_splitlines raw l c Hl Hc).
Qed.

Lemma normalize_line_breaks_lines (raw : str) :
  normalize_line_breaks raw =
  concat (List.map line_contribution (nonblank_lines raw)).
Proof.
  unfold normalize_line_breaks, nonblank_lines.
  now rewrite fold_normalize_line.
Qed.

Lemma breaks_closed_at (a : str) (c : char) (b : str) (prev : option char) :
  breaks_closed prev (a ++ c :: b) = true ->
  Unicode.is_linebreak c = true ->
  c = LF /\ is_terminal_opt (last_or prev a) = true.
Proof.
  rewrite breaks_closed_app. cbn [breaks_closed].
  intros H Hc. rewrite Hc in H.
  apply andb_true_iff in H as [_ H]. apply andb_true_iff in H as [H _].
  apply andb_true_iff in H as [H1 H2]. apply N.eqb_eq in H1.
  split; assumption.
Qed.

(** X9: in the normalised text a line boundary is always a line feed
    that stands right after a sentence-final character: the text never
    starts with a line boundary and keeps no carriage return or other
    line separator of the page. *)
Theorem newline_follows_terminal (raw a : str) (c : char) (b : str) :
  normalize_line_breaks raw = a ++ c :: b ->
  Unicode.is_linebreak c = true ->
  c = LF /\ ends_terminal a = true.
Proof.
  intros Heq Hc.
  assert (Hok : breaks_closed None (normalize_line_breaks raw) = true).
  { rewrite normalize_line_breaks_lines. apply contributions_breaks.
    intros line d Hl Hd. exact (proj2 (in_nonblank_lines raw line d Hl Hd)). }
  rewrite Heq in Hok. apply breaks_closed_at in Hok as [H1 H2]; [|exact Hc].
  split; [exact H1|]. unfold ends_terminal. unfold last_or in H2.
  now destruct (last a).
Qed.

Lemma newline_follows_terminal_witness :
  LF = LF /\ ends_terminal (lit "One.") = true.
Proof.
  apply (newline_follows_terminal
           (lit "One." ++ [13; 10]%N ++ lit "Two") (lit "One.") LF
           (lit "Two ")).
  - vm_compute. reflexivity.
  - reflexivity.
Defined.

Lemma lstrip_blank (s : str) :
  (forall c, In c s -> Unicode.is_space c = true) -> PyStr.lstrip s = [].
Proof.
  induction s as [|c s IH]; intros Hall; [reflexivity|].
  cbn. rewrite (Hall c) by now left. apply IH. intros d Hd. apply Hall.
  now right.
Qed.

Lemma strip_blank (s : str) :
  (forall c, In c s -> Unicode.is_space c = true) -> PyStr.strip s = [].
Proof.
  intros Hall. unfold PyStr.strip. now rewrite (lstrip_blank s Hall).
Qed.

Lemma blank_lines_filter (lines : list str) :
  (forall line c, In line lines -> In c line -> Unicode.is_space c = true) ->
  List.filter (fun l => match l with [] => false | _ => true end)
    (List.map PyStr.strip lines) = [].
Proof.
  induction lines as [|line lines IH]; intros Hall; [reflexivity|].
  cbn [List.map List.filter].
  rewrite strip_blank by (intros c; apply Hall; now left).
  apply IH. intros l c Hl. apply Hall. now right.
Qed.

(** X10: a page text of whitespace only, however many lines it has,
    normalises to the empty text. *)
Theorem normalize_blank (raw : str) :
  (forall c, In c raw -> Unicode.is_space c = true) ->
  normalize_line_breaks raw = [].
Proof.
  intros Hall. rewrite normalize_line_breaks_lines. unfold nonblank_lines.
  rewrite blank_lines_filter; [reflexivity|].
  intros line c Hl Hc. apply Hall.
  exact (proj1 (in_splitlines raw line c Hl Hc)).
Qed.

Lemma normalize_blank_witness :
  normalize_line_breaks ([32; 10; 9; 13; 10; 12288]%N) = [].
Proof.
  apply normalize_blank. intros c Hc.
  repeat (destruct Hc as [<-|Hc]; [reflexivity|]). contradiction.
Defined.

(** ** More on the sentence splitter *)

Lemma boundary_free_app (x y : str) :
  forall prev,
    boundary_free prev (x ++ y) =
    (boundary_free prev x && boundary_free (last_or prev x) y)%bool.
Proof.
  induction x as [|c x IH]; intros prev; [reflexivity|].
  cbn [app boundary_free]. now rewrite IH, last_or_cons, andb_assoc.
Qed.

Lemma boundary_free_fresh (prev : option char) (s : str) :
  boundary_free prev s = true -> boundary_free None s = true.
Proof.
  destruct s as [|c s]; [reflexivity|]. cbn [boundary_free].
  intros H. apply andb_true_iff in H as [_ H]. exact H.
Qed.

Lemma sentence_endings_none (prev : option char) (c : char) (rest : str) :
  (is_terminal_opt prev && Unicode.is_space c)%bool = false ->
  Re.sentence_endings prev (c :: rest) = None.
Proof.
  unfold Re.sentence_endings, is_terminal_opt.
  destruct prev as [p|]; [|reflexivity].
  destruct (is_terminal p); [|reflexivity]. cbn [andb Re.run].
  now intros ->.
Qed.

Lemma sentence_endings_some (prev : option char) (c : char) (rest : str)
    (n : nat) :
  Re.sentence_endings prev (c :: rest) = Some n ->
  (is_terminal_opt prev && Unicode.is_space c)%bool = true.
Proof.
  destruct (is_terminal_opt prev && Unicode.is_space c)%bool eqn:E;
    [reflexivity|].
  now rewrite (sentence_endings_none prev c rest E).
Qed.

(** A text without a place to cut comes back as one piece. *)
Lemma split_aux_boundary_free (s : str) :
  forall prev cur,
    boundary_free prev s = true ->
    Re.split_aux Re.sentence_endings prev O cur s = [rev cur ++ s].
Proof.
  induction s as [|c rest IH]; intros prev cur Hbf.
  - cbn. now rewrite app_nil_r.
  - cbn [boundary_free] in Hbf. apply andb_true_iff in Hbf as [Hc Hrest].
    apply negb_true_iff in Hc. cbn [Re.split_aux].
    rewrite (sentence_endings_none prev c rest Hc), (IH _ _ Hrest).
    cbn [rev]. now rewrite <- app_assoc.
Qed.

(** Every piece of the splitter is without a place to cut. *)
Lemma split_aux_pieces_free (s : str) :
  forall prev skip cur,
    (skip = O -> boundary_free None (rev cur) = true /\
                 (cur <> [] -> prev = head cur)) ->
    (skip <> O -> cur = []) ->
    Forall (fun piece => boundary_free None piece = true)
      (Re.split_aux Re.sentence_endings prev skip cur s).
Proof.
  induction s as [|c rest IH]; intros prev skip cur Hzero Hskip.
  - cbn. constructor; [|constructor].
    destruct skip; [apply Hzero; reflexivity|].
    now rewrite Hskip.
  - cbn [Re.split_aux]. destruct skip as [|k].
    + destruct (Hzero eq_refl) as [Hcur Hprev].
      assert (Hgrow : (is_terminal_opt prev && Unicode.is_space c)%bool
                      = false ->
                      Forall (fun piece => boundary_free None piece = true)
                        (Re.split_aux Re.sentence_endings (Some c) O
                           (c :: cur) rest)).
      { intros Hc. apply IH; [|intros H; now contradiction H].
        intros _. split; [|intros _; reflexivity].
        cbn [rev]. rewrite boundary_free_app, Hcur. cbn [andb boundary_free].
        rewrite andb_true_r. apply negb_true_iff.
        destruct cur as [|h cur']; [reflexivity|].
        rewrite (Hprev ltac:(discriminate)) in Hc. cbn [head] in Hc.
        unfold last_or. cbn [rev]. now rewrite last_snoc. }
      destruct (Re.sentence_endings prev (c :: rest)) as [[|k]|] eqn:Hm.
      * apply Hgrow.
        destruct (is_terminal_opt prev && Unicode.is_space c)%bool eqn:E;
          [|reflexivity].
        unfold Re.sentence_endings, is_terminal_opt in Hm, E.
        destruct prev as [p|]; [|discriminate].
        destruct (is_terminal p); [|discriminate].
        cbn [andb] in E. cbn [Re.run] in Hm. rewrite E in Hm. discriminate.
      * constructor; [exact Hcur|].
        destruct k as [|k].
        -- apply IH; [|intros H; now contradiction H].
           intros _. split; [reflexivity | intros H; now contradiction H].
        -- apply IH; [discriminate | reflexivity].
      * apply Hgrow.
        destruct (is_terminal_opt prev && Unicode.is_space c)%bool eqn:E;
          [|reflexivity].
        unfold Re.sentence_endings, is_terminal_opt in Hm, E.
        destruct prev as [p|]; [|discriminate].
        destruct (is_terminal p); [|discriminate].
        cbn [andb] in E. cbn [Re.run] in Hm. rewrite E in Hm. discriminate.
    + rewrite (Hskip ltac:(discriminate)).
      destruct k as [|k].
      * apply IH; [|intros H; now contradiction H].
        intros _. split; [reflexivity | intros H; now contradiction H].
      * apply IH; [discriminate | reflexivity].
Qed.

Lemma lstrip_suffix (s : str) : exists l, s = l ++ PyStr.lstrip s.
Proof.
  induction s as [|c s [l IH]]; [now exists []|].
  cbn. destruct (Unicode.is_space c).
  - exists (c :: l). cbn. now f_equal.
  - now exists [].
Qed.

Lemma strip_middle (s : str) : exists l r, s = l ++ PyStr.strip s ++ r.
Proof.
  destruct (lstrip_suffix s) as [l Hl].
  destruct (lstrip_suffix (rev (PyStr.lstrip s))) as [r Hr].
  exists l, (rev r). unfold PyStr.strip, PyStr.rstrip.
  rewrite <- rev_app_distr, <- Hr, rev_involutive. exact Hl.
Qed.

Lemma boundary_free_strip (s : str) :
  boundary_free None s = true -> boundary_free None (PyStr.strip s) = true.
Proof.
  destruct (strip_middle s) as (l & r & Heq). intros H.
  rewrite Heq, !boundary_free_app in H.
  apply andb_true_iff in H as [_ H]. apply andb_true_iff in H as [H _].
  exact (boundary_free_fresh _ _ H).
Qed.

Lemma in_strip_nonempty (l : list str) (x : str) :
  In x (strip_nonempty l) -> exists s, In s l /\ x = PyStr.strip s.
Proof.
  induction l as [|s l IH]; [contradiction|].
  cbn [strip_nonempty].
  destruct (PyStr.strip s) as [|c r] eqn:E.
  - intros H. destruct (IH H) as (s' & Hs & ->). exists s'. split; auto.
    now right.
  - intros [<-|H].
    + exists s. split; [now left | now rewrite E].
    + destruct (IH H) as (s' & Hs & ->). exists s'. split; auto. now right.
Qed.

(** X11: a sentence that the splitter gives is final: splitting it again
    gives back that one sentence and nothing else. *)
Theorem split_into_sentences_stable (text x : str) :
  In x (split_into_sentences text) ->
  split_into_sentences x = [x].
Proof.
  intros Hx. pose proof (split_into_sentences_stripped text x Hx)
    as [Hne Hstrip].
  unfold split_into_sentences in Hx.
  apply in_strip_nonempty in Hx as (piece & Hpiece & ->).
  assert (Hfree : boundary_free None piece = true).
  { pose proof (split_aux_pieces_free text None O []) as Hall.
    rewrite List.Forall_forall in Hall. apply Hall; [| |exact Hpiece].
    - intros _. split; [reflexivity | intros H; now contradiction H].
    - intros H. now contradiction H. }
  apply boundary_free_strip in Hfree.
  unfold split_into_sentences, Re.split.
  rewrite (split_aux_boundary_free _ None [] Hfree). cbn [rev app].
  cbn [strip_nonempty]. rewrite Hstrip.
  destruct (PyStr.strip piece); [now contradiction Hne | reflexivity].
Qed.

Lemma split_into_sentences_stable_witness :
  split_into_sentences (lit "Yes.") = [lit "Yes."].
Proof.
  apply (split_into_sentences_stable (lit "Is it 3.5?  Yes. No") (lit "Yes.")).
  vm_compute. tauto.
Defined.

Lemma boundary_free_no_terminal (s : str) :
  forall prev,
    is_terminal_opt prev = false ->
    (forall c, In c s -> is_terminal c = false) ->
    boundary_free prev s = true.
Proof.
  induction s as [|c s IH]; intros prev Hprev Hno; [reflexivity|].
  cbn [boundary_free]. rewrite Hprev. cbn [andb negb].
  apply IH; [apply Hno; now left|]. intros d Hd. apply Hno. now right.
Qed.

(** X12: a text without any sentence-final character is never cut: it
    gives its stripped form as the only sentence, or no sentence when it
    is blank. *)
Theorem split_into_sentences_no_terminal (text : str) :
  (forall c, In c text -> is_terminal c = false) ->
  split_into_sentences text =
    match PyStr.strip text with
    | [] => []
    | x => [x]
    end.
Proof.
  intros Hno. unfold split_into_sentences, Re.split.
  rewrite (split_aux_boundary_free text None [])
    by (now apply boundary_free_no_terminal).
  cbn [rev app strip_nonempty]. now destruct (PyStr.strip text).
Qed.

Lemma split_into_sentences_no_terminal_witness :
  split_into_sentences (lit "  no end here  ") = [lit "no end here"].
Proof.
  apply (split_into_sentences_no_terminal (lit "  no end here  ")).
  intros c Hc. vm_compute in Hc.
  repeat (destruct Hc as [<-|Hc]; [reflexivity|]). contradiction.
Defined.

(** ** The files of the sentences *)

Lemma startswith_spec (s p : str) :
  PyStr.startswith s p = true <-> exists r, s = p ++ r.
Proof.
  revert s. induction p as [|a p IH]; intros s.
  - cbn. destruct s; split; eauto.
  - destruct s as [|b s]; cbn [PyStr.startswith].
    + split; [discriminate | intros [r Hr]; discriminate].
    + rewrite andb_true_iff, N.eqb_eq, IH. split.
      * intros [-> [r ->]]. now exists r.
      * intros [r [= -> ->]]. eauto.
Qed.

Lemma startswith_app (x s p : str) :
  PyStr.startswith (x ++ s) (x ++ p) = PyStr.startswith s p.
Proof.
  induction x as [|c x IH]; [reflexivity|].
  cbn [app PyStr.startswith]. now rewrite N.eqb_refl, IH.
Qed.

Lemma path_join_relative (output_dir b : str) :
  PyStr.startswith b [SLASH] = false ->
  path_join output_dir b = dir_prefix output_dir ++ b.
Proof.
  intros Hb. unfold path_join, dir_prefix. rewrite Hb.
  destruct output_dir as [|c d]; [reflexivity|].
  destruct (PyStr.endswith_char (c :: d) SLASH); [reflexivity|].
  now rewrite <- app_assoc.
Qed.

Lemma in_uint_chars (d : Decimal.uint) (c : char) :
  In c (uint_chars d) -> (48 <= c <= 57)%N.
Proof.
  induction d; cbn [uint_chars]; try contradiction;
    (intros [<-|H]; [lia | exact (IHd H)]).
Qed.

Lemma uint_chars_inj (d d' : Decimal.uint) :
  uint_chars d = uint_chars d' -> d = d'.
Proof.
  revert d'. induction d; destruct d'; cbn [uint_chars]; intros H;
    try discriminate H; try reflexivity;
    injection H as H; f_equal; now apply IHd.
Qed.

Lemma uint_chars_zeros (k : nat) (d : Decimal.uint) :
  replicate k 48%N ++ uint_chars d = uint_chars (with_zeros k d).
Proof.
  induction k as [|k IH]; [reflexivity|].
  cbn [replicate app]. rewrite IH. reflexivity.
Qed.

Lemma of_uint_zeros (k : nat) (d : Decimal.uint) :
  N.of_uint (with_zeros k d) = N.of_uint d.
Proof. induction k as [|k IH]; [reflexivity | exact IH]. Qed.

Lemma zero_pad_inj (w : nat) (m m' : N) :
  zero_pad w (decimal m) = zero_pad w (decimal m') -> m = m'.
Proof.
  unfold zero_pad, decimal. rewrite !uint_chars_zeros.
  intros H. apply uint_chars_inj, (f_equal N.of_uint) in H.
  rewrite !of_uint_zeros, !DecimalN.Unsigned.of_to in H. exact H.
Qed.

Lemma in_zero_pad (w : nat) (m : N) (c : char) :
  In c (zero_pad w (decimal m)) -> (48 <= c <= 57)%N.
Proof.
  unfold zero_pad, decimal. rewrite uint_chars_zeros. apply in_uint_chars.
Qed.

Lemma in_format_d (w : nat) (n : Z) (c : char) :
  In c (format_d w n) -> c = HYPHEN \/ (48 <= c <= 57)%N.
Proof.
  unfold format_d. destruct (n <? 0).
  - intros [<-|H]; [now left | right; exact (in_zero_pad _ _ _ H)].
  - intros H. right. exact (in_zero_pad _ _ _ H).
Qed.

(** The formatted number tells the number. *)
Lemma format_d_inj (w : nat) (n n' : Z) :
  format_d w n = format_d w n' -> n = n'.
Proof.
  unfold format_d.
  destruct (Z.ltb_spec n 0) as [Hn|Hn], (Z.ltb_spec n' 0) as [Hn'|Hn'].
  - intros [= H]. apply zero_pad_inj in H. lia.
  - intros H.
    assert (Hin : In HYPHEN (zero_pad w (decimal (Z.to_N n'))))
      by (rewrite <- H; now left).
    apply in_zero_pad in Hin. unfold HYPHEN in Hin. lia.
  - intros H.
    assert (Hin : In HYPHEN (zero_pad w (decimal (Z.to_N n))))
      by (rewrite H; now left).
    apply in_zero_pad in Hin. unfold HYPHEN in Hin. lia.
  - intros H. apply zero_pad_inj in H. lia.
Qed.

(** Two texts that agree up to a mark that neither holds before it agree
    before and after the mark. *)
Lemma split_at_mark (x : char) (a a' b b' : str) :
  ~ In x a -> ~ In x a' -> a ++ x :: b = a' ++ x :: b' ->
  a = a' /\ b = b'.
Proof.
  revert a'. induction a as [|c a IH]; intros a' Ha Ha' H.
  - destruct a' as [|c' a']; [now injection H as ->|].
    injection H as -> _. contradiction Ha'. now left.
  - destruct a' as [|c' a'].
    + injection H as -> _. contradiction Ha. now left.
    + injection H as -> H. destruct (IH a') as [-> ->]; auto.
      * intros Hin. apply Ha. now right.
      * intros Hin. apply Ha'. now right.
Qed.

Lemma format_d_no_underscore (w : nat) (n : Z) :
  ~ In UNDERSCORE (format_d w n).
Proof.
  intros H. apply in_format_d in H as [H|H]; [discriminate|].
  unfold UNDERSCORE in H. lia.
Qed.

(** A file name tells its page and its index. *)
Lemma file_name_inj (output_dir : str) (p i p' i' : Z) :
  file_name output_dir p i = file_name output_dir p' i' ->
  p = p' /\ i = i'.
Proof.
  unfold file_name, page_prefix. rewrite <- !app_assoc.
  intros H. apply app_inv_head in H. apply app_inv_head in H.
  change (lit "_" ++ ?t) with (UNDERSCORE :: t) in H.
  apply split_at_mark in H as [Hp Hi];
    try apply format_d_no_underscore.
  split; [exact (format_d_inj _ _ _ Hp)|].
  apply app_inv_tail in Hi. exact (format_d_inj _ _ _ Hi).
Qed.

Lemma file_name_prefix (output_dir : str) (p i : Z) :
  PyStr.startswith (file_name output_dir p i) (page_prefix output_dir p)
  = true.
Proof. apply startswith_spec. unfold file_name. eauto. Qed.

Lemma name_count_app (output_dir : str) (p : Z) (names more : list str) :
  name_count output_dir p (names ++ more) =
  name_count output_dir p names + name_count output_dir p more.
Proof.
  unfold name_count. rewrite List.filter_app, length_app. lia.
Qed.

Lemma name_count_nonneg (output_dir : str) (p : Z) (names : list str) :
  0 <= name_count output_dir p names.
Proof. unfold name_count. lia. Qed.

(** The name that step 7-1 builds. *)
Lemma store_sentence_names (output_dir output_format : str) (out : Outputs)
    (r : SentenceRecord) :
  sent_txt_files (store_sentence output_dir output_format out r) =
  sent_txt_files out ++
  [file_name output_dir (page_num r)
     (name_count output_dir (page_num r) (sent_txt_files out) + 1)].
Proof.
  unfold store_sentence, file_name, name_count, page_prefix.
  cbn [sent_txt_files]. rewrite !path_join_relative by reflexivity.
  now rewrite <- !app_assoc.
Qed.

Lemma store_sentence_written (output_dir output_format : str)
    (out : Outputs) (r : SentenceRecord) :
  written (store_sentence output_dir output_format out r) =
  <[file_name output_dir (page_num r)
      (name_count output_dir (page_num r) (sent_txt_files out) + 1)
    := sentence r]> (written out).
Proof.
  unfold store_sentence, file_name, name_count, page_prefix.
  cbn [written]. rewrite !path_join_relative by reflexivity.
  now rewrite <- !app_assoc.
Qed.

Lemma fresh_name (output_dir : str) (names : list str) (p : Z) :
  names_counted output_dir names ->
  ~ In (file_name output_dir p (name_count output_dir p names + 1)) names.
Proof.
  intros Hok Hin. destruct (Hok _ Hin) as (q & i & Heq & Hi).
  apply file_name_inj in Heq as [<- <-]. lia.
Qed.

Lemma names_counted_snoc (output_dir : str) (names : list str) (p : Z) :
  names_counted output_dir names ->
  names_counted output_dir
    (names ++ [file_name output_dir p (name_count output_dir p names + 1)]).
Proof.
  intros Hok f [Hin|[<-|[]]]%in_app_or.
  - destruct (Hok f Hin) as (q & i & -> & Hi). exists q, i.
    split; [reflexivity|]. rewrite name_count_app.
    pose proof (name_count_nonneg output_dir q
                  [file_name output_dir p
                     (name_count output_dir p names + 1)]). lia.
  - exists p, (name_count output_dir p names + 1). split; [reflexivity|].
    rewrite name_count_app. unfold name_count at 3. cbn [List.filter].
    rewrite file_name_prefix. cbn. lia.
Qed.

Lemma store_all_snoc (output_dir output_format : str) (files : gmap str str)
    (recs : list SentenceRecord) (r : SentenceRecord) :
  store_all output_dir output_format files (recs ++ [r]) =
  store_sentence output_dir output_format
    (store_all output_dir output_format files recs) r.
Proof. unfold store_all. now rewrite fold_left_app. Qed.

(** What holds after any number of sentences: the names are counted and
    differ from one another, there is one name for each record, the file
    of each record holds its sentence, and no other file is touched. *)
Lemma store_all_invariant (output_dir output_format : str)
    (files : gmap str str) (recs : list SentenceRecord) :
  let out := store_all output_dir output_format files recs in
  names_counted output_dir (sent_txt_files out) /\
  NoDup (sent_txt_files out) /\
  length (sent_txt_files out) = length recs /\
  (forall (k : nat) f r,
      sent_txt_files out !! k = Some f -> recs !! k = Some r ->
      written out !! f = Some (sentence r)) /\
  (forall f, ~ In f (sent_txt_files out) -> written out !! f = files !! f).
Proof.
  induction recs as [|r recs IH] using rev_ind.
  - cbn. repeat split.
    + intros f [].
    + constructor.
    + intros k f r Hk. now rewrite lookup_nil in Hk.
  - cbn zeta in *. rewrite store_all_snoc.
    set (out := store_all output_dir output_format files recs) in *.
    destruct IH as (Hok & Hnodup & Hlen & Hfiles & Hrest).
    rewrite store_sentence_names, store_sentence_written.
    set (fname := file_name output_dir (page_num r)
                    (name_count output_dir (page_num r) (sent_txt_files out)
                     + 1)).
    pose proof (fresh_name output_dir _ (page_num r) Hok) as Hfresh.
    fold fname in Hfresh.
    split; [apply names_counted_snoc, Hok|].
    split. { apply NoDup_app. split; [exact Hnodup|]. split.
             - intros x Hx Hx'. apply list_elem_of_In in Hx, Hx'.
               destruct Hx' as [<-|[]]. exact (Hfresh Hx).
             - apply NoDup_singleton. }
    split; [rewrite !length_app; cbn; lia|].
    split.
    + intros k f r' Hk Hr'.
      destruct (decide (k < length recs)%nat) as [Hlt|Hge].
      * rewrite lookup_app_l in Hk by lia.
        rewrite lookup_app_l in Hr' by lia.
        rewrite lookup_insert_ne; [exact (Hfiles k f r' Hk Hr')|].
        intros <-. apply Hfresh, list_elem_of_In.
        now apply list_elem_of_lookup_2 in Hk.
      * assert (k = length recs) as ->.
        { apply lookup_lt_Some in Hr'. rewrite length_app in Hr'.
          cbn in Hr'. lia. }
        rewrite lookup_app_r in Hk by lia.
        rewrite lookup_app_r in Hr' by lia.
        rewrite Hlen, Nat.sub_diag in Hk. rewrite Nat.sub_diag in Hr'.
        cbn in Hk, Hr'. injection Hk as <-. injection Hr' as <-.
        apply lookup_insert_eq.
    + intros f Hf.
      rewrite lookup_insert_ne.
      * apply Hrest. intros Hin. apply Hf, in_or_app. now left.
      * intros <-. apply Hf, in_or_app. right. now left.
Qed.

Lemma extract_to_files_inv (doc : list Page) (output_dir : str)
    (cfg : Settings) (output_format : str) (files : gmap str str)
    (e : Extraction) :
  extract_to_files doc output_dir cfg output_format files = Some e ->
  exists recs,
    extract_sentences_with_page doc cfg = Some recs /\
    e = finish output_dir output_format
          (store_all output_dir output_format files recs).
Proof.
  unfold extract_to_files.
  destruct (extract_sentences_with_page doc cfg) as [recs|]; [|discriminate].
  intros [= <-]. now exists recs.
Qed.

(** X13: no sentence file is written twice: the names that the function
    returns differ from one another, whatever the pages, the settings and
    the output directory. *)
Theorem sentence_files_distinct (doc : list Page) (output_dir : str)
    (cfg : Settings) (output_format : str) (files : gmap str str)
    (e : Extraction) :
  extract_to_files doc output_dir cfg output_format files = Some e ->
  NoDup (result_sent_txt_files e).
Proof.
  intros H. apply extract_to_files_inv in H as (recs & _ & ->).
  exact (proj1 (proj2 (store_all_invariant output_dir output_format files
                         recs))).
Qed.

Lemma sentence_files_distinct_witness :
  exists e,
    extract_to_files echo_doc (lit "out") (plain_settings [] 1)
      (lit "individual") ∅ = Some e /\
    NoDup (result_sent_txt_files e).
Proof.
  eexists. split; [reflexivity|].
  exact (sentence_files_distinct echo_doc (lit "out") (plain_settings [] 1)
           (lit "individual") ∅ _ eq_refl).
Defined.



Lemma format3_length (p : Z) :
  0 <= p <= 999 -> length (format_d 3 p) = 3%nat.
Proof.
  intros Hp.
  assert (Hall : forallb (fun q => Nat.eqb (length (format_d 3 q)) 3)
                   (seqZ 0 1000) = true) by (vm_compute; reflexivity).
  rewrite forallb_forall in Hall. apply Nat.eqb_eq, Hall.
  apply list_elem_of_In, elem_of_seqZ. lia.
Qed.

(** Below a thousand, the names of one page start like no other
    page. *)
Lemma page_prefix_own (output_dir : str) (p q i : Z) :
  0 <= p <= 999 -> 0 <= q <= 999 ->
  PyStr.startswith (file_name output_dir q i) (page_prefix output_dir p)
    = true ->
  p = q.
Proof.
  intros Hp Hq. unfold file_name, page_prefix.
  rewrite <- !app_assoc, !startswith_app. intros H.
  apply startswith_spec in H as [r Hr].
  apply app_inj_1 in Hr as [Hr _].
  - symmetry. exact (format_d_inj _ _ _ Hr).
  - now rewrite !format3_length.
Qed.

Lemma name_count_single (output_dir : str) (p q i : Z) :
  0 <= p <= 999 -> 0 <= q <= 999 ->
  name_count output_dir q [file_name output_dir p i] =
  if Z.eq_dec p q then 1 else 0.
Proof.
  intros Hp Hq. unfold name_count. cbn [List.filter].
  destruct (Z.eq_dec p q) as [->|Hne].
  - now rewrite file_name_prefix.
  - destruct (PyStr.startswith _ _) eqn:E; [|reflexivity].
    apply page_prefix_own in E; [congruence | exact Hq | exact Hp].
Qed.

Lemma store_names_per_page (output_dir output_format : str)
    (recs : list SentenceRecord) :
  forall (out : Outputs) (seen : list Z),
    (forall r, In r recs -> 0 <= page_num r <= 999) ->
    (forall p, 0 <= p <= 999 ->
               name_count output_dir p (sent_txt_files out) =
               Z.of_nat (count_occ Z.eq_dec seen p)) ->
    sent_txt_files
      (fold_left (store_sentence output_dir output_format) recs out) =
    sent_txt_files out ++ per_page_names output_dir seen recs.
Proof.
  induction recs as [|r recs IH]; intros out seen Hrange Hcount.
  - cbn. now rewrite app_nil_r.
  - cbn [fold_left per_page_names].
    assert (Hr : 0 <= page_num r <= 999) by (apply Hrange; now left).
    rewrite (IH _ (page_num r :: seen)).
    + rewrite store_sentence_names, <- app_assoc, (Hcount _ Hr).
      reflexivity.
    + intros r' Hr'. apply Hrange. now right.
    + intros p Hp. rewrite store_sentence_names, name_count_app,
        (Hcount p Hp), (name_count_single output_dir _ p _ Hr Hp).
      cbn [count_occ]. destruct (Z.eq_dec (page_num r) p); lia.
Qed.

(** X15: in a document of at most 999 pages the files of each start page
    are numbered 1, 2, 3 and so on in the order of storing: the name of a
    sentence is page_PPP_NNNN.txt with PPP its start page and NNNN one
    more than the number of sentences stored before it with that start
    page. *)
Theorem sentence_files_numbered_per_page (doc : list Page)
    (output_dir : str) (cfg : Settings) (output_format : str)
    (files : gmap str str) (e : Extraction) :
  (length doc <= 999)%nat ->
  extract_to_files doc output_dir cfg output_format files = Some e ->
  exists recs,
    extract_sentences_with_page doc cfg = Some recs /\
    result_sent_txt_files e = per_page_names output_dir [] recs.
Proof.
  intros Hlen H. apply extract_to_files_inv in H as (recs & Hrecs & ->).
  exists recs. split; [exact Hrecs|].
  cbn [finish result_sent_txt_files]. unfold store_all.
  rewrite (store_names_per_page output_dir output_format recs _ []);
    [reflexivity | | reflexivity].
  intros r Hr. rewrite (proj2 (walk_final cfg doc)) in Hrecs.
  injection Hrecs as <-.
  apply record_page_included in Hr as (i & page & Hi & -> & _).
  apply lookup_lt_Some in Hi. lia.
Qed.

Lemma sentence_files_numbered_per_page_witness :
  exists e,
    extract_to_files gap_doc (lit "out") gap_settings (lit "csv") ∅
      = Some e /\
    result_sent_txt_files e =
      [lit "out/page_003_0001.txt"; lit "out/page_003_0002.txt"].
Proof.
  eexists. split; [reflexivity|].
  destruct (sentence_files_numbered_per_page gap_doc (lit "out") gap_settings
              (lit "csv") ∅ _ ltac:(cbn; lia) eq_refl)
    as (recs & Hrecs & ->).
  vm_compute in Hrecs. injection Hrecs as <-. vm_compute. reflexivity.
Defined.

Lemma store_all_table_records (output_dir output_format : str)
    (files : gmap str str) (recs : list SentenceRecord) :
  table_records (store_all output_dir output_format files recs) =
  if keeps_table output_format then recs else [].
Proof.
  induction recs as [|r recs IH] using rev_ind.
  - cbn. now destruct (keeps_table output_format).
  - rewrite store_all_snoc. unfold store_sentence. cbn [table_records].
    rewrite IH. now destruct (keeps_table output_format).
Qed.

(** X16: a table is written only in its own format and only when some
    sentence was stored: the csv path is set exactly for the format "csv"
    with at least one record, the json path exactly for the format "json"
    with at least one record, and any other format sets neither. *)
Theorem table_paths (doc : list Page) (output_dir : str) (cfg : Settings)
    (output_format : str) (files : gmap str str) (e : Extraction) :
  extract_to_files doc output_dir cfg output_format files = Some e ->
  exists recs,
    extract_sentences_with_page doc cfg = Some recs /\
    (csv_path e <> None <-> output_format = lit "csv" /\ recs <> []) /\
    (json_path e <> None <-> output_format = lit "json" /\ recs <> []) /\
    (forall path, csv_path e = Some path ->
                  path = path_join output_dir (lit "all_sentences.csv")) /\
    (forall path, json_path e = Some path ->
                  path = path_join output_dir (lit "all_sentences.json")).
Proof.
  intros H. apply extract_to_files_inv in H as (recs & Hrecs & ->).
  exists recs. split; [exact Hrecs|].
  unfold finish. cbn [csv_path json_path].
  rewrite store_all_table_records. unfold keeps_table.
  destruct (bool_decide_reflect (output_format = lit "csv")) as [Hcsv|Hcsv];
    destruct (bool_decide_reflect (output_format = lit "json"))
      as [Hjson|Hjson];
    try (exfalso; rewrite Hcsv in Hjson; discriminate Hjson);
    cbn [orb andb]; destruct recs as [|r recs]; cbn [andb];
    repeat split; try tauto; try congruence;
    try (intros [_ Hne]; now contradiction Hne).
Qed.

Lemma table_paths_witness :
  exists e,
    extract_to_files gap_doc (lit "out") gap_settings (lit "json") ∅
      = Some e /\
    csv_path e = None /\ json_path e <> None.
Proof.
  eexists. split; [reflexivity|].
  destruct (table_paths gap_doc (lit "out") gap_settings (lit "json") ∅ _
              eq_refl) as (recs & Hrecs & Hcsv & Hjson & _).
  vm_compute in Hrecs. injection Hrecs as <-. split.
  - destruct (csv_path _) eqn:E; [|reflexivity].
    destruct (proj1 Hcsv ltac:(discriminate)) as [Hfmt _].
    discriminate Hfmt.
  - apply Hjson. split; [reflexivity | discriminate].
Defined.

(** ** Blank pages and skipped pages *)

Lemma sentence_boundary_free (text x : str) :
  In x (split_into_sentences text) -> boundary_free None x = true.
Proof.
  unfold split_into_sentences. intros Hx.
  apply in_strip_nonempty in Hx as (piece & Hpiece & ->).
  apply boundary_free_strip.
  pose proof (split_aux_pieces_free text None O []) as Hall.
  rewrite List.Forall_forall in Hall. apply Hall; [| |exact Hpiece].
  - intros _. split; [reflexivity | intros H; now contradiction H].
  - intros H. now contradiction H.
Qed.

Lemma process_text_fragment_free (n : Z) (raw : str) (st : WalkState) :
  boundary_free None (carryover_fragment (process_text n raw st)) = true.
Proof.
  destruct (process_text_cases n raw st)
    as [(init & x & Hs & _ & ->) | [_ ->]]; cbn [carryover_fragment];
    [|reflexivity].
  apply (sentence_boundary_free (merged_text raw st)).
  rewrite Hs. apply in_or_app. right. now left.
Qed.

Lemma run_pages_fragment (cfg : Settings) (numbered : list (Z * Page)) :
  let st := run_pages cfg numbered initial_state in
  fragment_open st /\ boundary_free None (carryover_fragment st) = true.
Proof.
  cbn zeta. split; [apply run_pages_closed|].
  apply (run_pages_invariant cfg
           (fun st => boundary_free None (carryover_fragment st) = true));
    [|reflexivity].
  intros n page st _ _. apply process_text_fragment_free.
Qed.

Lemma strip_fixed_space (f : str) :
  f <> [] -> PyStr.strip f = f -> PyStr.strip (f ++ [SPACE]) = f.
Proof.
  intros Hne Hf. destruct f as [|c r]; [now contradiction Hne|].
  pose proof (strip_head _ _ _ Hf) as Hc.
  assert (Hl : PyStr.lstrip (c :: r) = c :: r) by (cbn; now rewrite Hc).
  assert (Hr : PyStr.rstrip (c :: r) = c :: r).
  { unfold PyStr.strip in Hf. now rewrite Hl in Hf. }
  unfold PyStr.strip. change ((c :: r) ++ [SPACE]) with (c :: r ++ [SPACE]).
  cbn [PyStr.lstrip]. rewrite Hc. unfold PyStr.rstrip in *.
  change (c :: r ++ [SPACE]) with ((c :: r) ++ [SPACE]).
  rewrite rev_app_distr. cbn [rev app PyStr.lstrip].
  change (Unicode.is_space SPACE) with true. cbn iota. exact Hr.
Qed.

Lemma split_fragment_space (f : str) :
  f <> [] -> PyStr.strip f = f -> ends_terminal f = false ->
  boundary_free None f = true ->
  split_into_sentences (f ++ [SPACE]) = [f].
Proof.
  intros Hne Hf Hend Hfree. unfold split_into_sentences, Re.split.
  rewrite (split_aux_boundary_free _ None []).
  - cbn [rev app strip_nonempty]. rewrite (strip_fixed_space f Hne Hf).
    now destruct f.
  - rewrite boundary_free_app, Hfree. cbn [andb boundary_free].
    unfold last_or, ends_terminal in *.
    destruct (last f) as [p|]; cbn [is_terminal_opt]; [|reflexivity].
    now rewrite Hend.
Qed.

Lemma blank_page_inert (n : Z) (raw : str) (st : WalkState) :
  fragment_open st ->
  boundary_free None (carryover_fragment st) = true ->
  normalize_line_breaks raw = [] ->
  process_text n raw st = st.
Proof.
  intros Hopen Hfree Hnorm.
  destruct (carryover_fragment st) as [|c r] eqn:Hfrag.
  - assert (Hm : merged_text raw st = [])
      by (unfold merged_text; now rewrite Hfrag, Hnorm).
    destruct (process_text_cases n raw st)
      as [(init & x & Hs & _ & _) | [_ ->]].
    + rewrite Hm in Hs. cbn in Hs. now destruct init.
    + rewrite Hm. unfold cleared_page. rewrite Hfrag. cbn.
      rewrite app_nil_r. destruct st; cbn in *. now subst.
  - destruct Hopen as [Hnil | [Hstrip Hend]]; [congruence|].
    rewrite Hfrag in Hstrip, Hend.
    assert (Hm : merged_text raw st = (c :: r) ++ [SPACE])
      by (unfold merged_text; now rewrite Hfrag, Hnorm).
    pose proof (split_fragment_space (c :: r) ltac:(discriminate) Hstrip
                  Hend Hfree) as Hsplit.
    destruct (process_text_cases n raw st)
      as [(init & x & Hs & _ & ->) | [[Hs | (init & x & Hs & Hx)] _]].
    + rewrite Hm, Hsplit in Hs.
      destruct init as [|y [|z init]]; try discriminate Hs.
      injection Hs as <-. unfold origin_page. rewrite Hfrag. cbn.
      rewrite app_nil_r. destruct st; cbn in *. now subst.
    + rewrite Hm, Hsplit in Hs. discriminate.
    + rewrite Hm, Hsplit in Hs.
      destruct init as [|y [|z init]]; try discriminate Hs.
      injection Hs as <-.
      rewrite (search_terminal_stripped _ Hstrip) in Hx. congruence.
Qed.

(** X17: a page that is not skipped but whose normalised text is empty
    changes nothing in a state that the walk has reached: the pending
    fragment and its page stay as they are and no record is added, so a
    sentence also carries on across blank pages. *)
Theorem blank_page_keeps_state (cfg : Settings) (doc : list Page)
    (st : WalkState) (n : Z) (raw : str) :
  walk cfg 0 doc initial_state = Some st ->
  normalize_line_breaks raw = [] ->
  process_text n raw st = st.
Proof.
  rewrite (proj1 (walk_final cfg doc)). intros [= <-] Hnorm.
  destruct (run_pages_fragment cfg (included_pages cfg 0 doc))
    as [Hopen Hfree].
  now apply blank_page_inert.
Qed.

Lemma blank_page_keeps_state_witness :
  let st := {| carryover_fragment := lit "Alpha"; carryover_page := Some 1;
               records := [] |} in
  process_text 2 [32; 10; 32]%N st = st.
Proof.
  apply (blank_page_keeps_state (plain_settings [] 1)
           [text_page [lit "Alpha"]] _ 2 [32; 10; 32]%N).
  - vm_compute. reflexivity.
  - vm_compute. reflexivity.
Defined.

(** Every name belongs to a record, by its start page. *)
Lemma store_all_names_pages (output_dir output_format : str)
    (files : gmap str str) (recs : list SentenceRecord) (f : str) :
  In f (sent_txt_files (store_all output_dir output_format files recs)) ->
  exists r i, In r recs /\ f = file_name output_dir (page_num r) i.
Proof.
  induction recs as [|r recs IH] using rev_ind; [contradiction|].
  rewrite store_all_snoc, store_sentence_names.
  intros [Hin|[<-|[]]]%in_app_or.
  - destruct (IH Hin) as (r' & i & Hr' & ->). exists r', i.
    split; [apply in_or_app; now left | reflexivity].
  - eexists r, _. split; [apply in_or_app; right; now left | reflexivity].
Qed.

Lemma record_page_not_skipped (cfg : Settings) (doc : list Page)
    (recs : list SentenceRecord) (r : SentenceRecord) :
  extract_sentences_with_page doc cfg = Some recs -> In r recs ->
  page_num r ∉ skip_pages cfg.
Proof.
  rewrite (proj2 (walk_final cfg doc)). intros [= <-] Hr Hin.
  apply record_page_included in Hr as (i & page & _ & _ & Hskip).
  unfold should_skip, should_skip_page in Hskip.
  destruct (decide (page_num r ∈ skip_pages cfg)); [discriminate|].
  contradiction.
Qed.

(** X18: in a run of the app no sentence file is named after a page that
    the skip-page text of the side bar names, be it as a number or inside
    a range. *)
Theorem app_skipped_page_has_no_file (uploaded : list Page)
    (output_format skip_pages_str : str) (mtl thr : Z) (images : bool)
    (mtr : float) (rhf : bool) (hr fr : float) (temp_output_dir : str)
    (files : gmap str str) (e : Extraction) (n i : Z) :
  run_app uploaded output_format skip_pages_str mtl thr images mtr rhf hr fr
    temp_output_dir files = Some e ->
  (exists tok, In tok (tokens skip_pages_str) /\ token_page tok n) ->
  ~ In (file_name temp_output_dir n i) (result_sent_txt_files e).
Proof.
  unfold run_app. intros He Htok Hin.
  apply extract_to_files_inv in He as (recs & Hrecs & ->).
  cbn [finish result_sent_txt_files] in Hin.
  apply store_all_names_pages in Hin as (r & j & Hr & Heq).
  apply file_name_inj in Heq as [-> _].
  apply (record_page_not_skipped _ _ _ _ Hrecs Hr). cbn [skip_pages].
  now apply in_parse_skip_pages.
Qed.

Lemma app_skipped_page_has_no_file_witness :
  exists e,
    run_app gap_doc (lit "individual") (lit "2-2") 1 3 false 0.0625%float
      false 0.0625%float 0.0625%float (lit "tmp") ∅ = Some e /\
    ~ In (lit "tmp/page_002_0001.txt") (result_sent_txt_files e).
Proof.
  eexists. split; [reflexivity|].
  apply (app_skipped_page_has_no_file gap_doc (lit "individual") (lit "2-2")
           1 3 false 0.0625%float false 0.0625%float 0.0625%float (lit "tmp")
           ∅ _ 2 1 eq_refl).
  exists (lit "2-2"). split; [vm_compute; tauto|].
  apply (inclusive_range _ _ (lit "2") (lit "2") 2 2);
    solve [ vm_compute; reflexivity | lia ].
Defined.
